(** * TakamoMap: location codes, stub sectors and the ownership cache

    A shallow embedding of the core of the Takamo galaxy viewer:
    - [utils/coordinates.py]: the coordinate codec;
    - [utils/data_loader.py]: the loader and its stub-sector repair pass;
    - [app.py]: the cache of locations owned by the Wyvern Supremacy.

    Python strings are modelled by [string] (one [ascii] per character,
    so the text is taken to be ASCII), integers by [Z], sets by [gset],
    dictionaries used as indices by [gmap].  Exceptions are explicit: a
    Python expression that may raise has type [result A], and a [try]
    block is its body passed to [try_except].

    Two conditions on the data bound the model, and the statements that
    depend on them say so.  The characters are ASCII: on other characters
    [str.upper] may change the length of the text or leave the 8-bit
    range ([is_ascii] below).  Every row has an integer [id], as the read
    contract of the backing store has it: a NULL or non-integer id makes
    [max()] raise inside the stub pass, which then creates nothing. *)

From Stdlib Require Import ZArith Ascii String.
From stdpp Require Import base tactics option list list_numbers sorting gmap sets strings.

(** ** Python exceptions *)

Inductive exn : Type :=
  | IndexError
  | ValueError
  | FileNotFoundError
  | OperationalError.

Inductive result (A : Type) : Type :=
  | Ok (a : A)
  | Raise (e : exn).
Arguments Ok {A} a.
Arguments Raise {A} e.

Global Instance result_ret : MRet result := fun A a => Ok a.
Global Instance result_bind : MBind result := fun A B f m =>
  match m with
  | Ok a => f a
  | Raise e => Raise e
  end.

(** [try: body except Exception: handler] *)
Definition try_except {A} (body : result A) (handler : exn → result A) : result A :=
  match body with
  | Ok a => Ok a
  | Raise e => handler e
  end.

(** ** Python string primitives *)

(** [s[:n]] *)
Fixpoint slice_to (n : nat) (s : string) : string :=
  match n, s with
  | S n', String c s' => String c (slice_to n' s')
  | _, _ => ""
  end.

(** [s[n:]] *)
Fixpoint slice_from (n : nat) (s : string) : string :=
  match n, s with
  | S n', String _ s' => slice_from n' s'
  | _, _ => s
  end.

(** [s[a:b]] for [a <= b] *)
Definition slice (a b : nat) (s : string) : string :=
  slice_to (b - a) (slice_from a s).

(** [s[i]]: raises [IndexError] past the end. *)
Fixpoint index (s : string) (i : nat) : result ascii :=
  match s, i with
  | "", _ => Raise IndexError
  | String c _, 0 => Ok c
  | String _ s', S i' => index s' i'
  end.

(** [ord(c)] *)
Definition ord (c : ascii) : Z := Z.of_nat (nat_of_ascii c).

(** [chr(n)] for a code point below 256 *)
Definition chr (n : Z) : ascii := ascii_of_nat (Z.to_nat n).

(** [c.upper()] on one ASCII character: a-z go to A-Z, the rest is
    unchanged.  (On a character above 127 Python may give another
    character, or two: that is outside the model.) *)
Definition upper_char (c : ascii) : ascii :=
  if ((97 <=? ord c) && (ord c <=? 122))%Z then chr (ord c - 32) else c.

(** [s.upper()] *)
Fixpoint upper (s : string) : string :=
  match s with
  | "" => ""
  | String c s' => String (upper_char c) (upper s')
  end.

(** [int(c)] for a one-character string: the digit's value, or
    [ValueError] when [c] is not a decimal digit. *)
Definition int (c : ascii) : result Z :=
  if ((48 <=? ord c) && (ord c <=? 57))%Z then Ok (ord c - 48)%Z
  else Raise ValueError.

(** [s.startswith(p)] *)
Fixpoint startswith (p s : string) : bool :=
  match p, s with
  | "", _ => true
  | String a p', String b s' => bool_decide (a = b) && startswith p' s'
  | String _ _, "" => false
  end.

(** [p in s]: substring test *)
Fixpoint contains (p s : string) : bool :=
  startswith p s ||
  match s with
  | "" => false
  | String _ s' => contains p s'
  end.

(** [s.split('/')]: never empty; [parts[0]] is what precedes the first
    slash. *)
Fixpoint split_slash (s : string) : list string :=
  match s with
  | "" => [""]
  | String c s' =>
      if bool_decide (c = "/"%char) then "" :: split_slash s'
      else match split_slash s' with
           | p :: ps => String c p :: ps
           | [] => [String c ""]
           end
  end.

(** Truthiness of a string: [if s] *)
Definition truthy (s : string) : bool :=
  match s with "" => false | _ => true end.

(** [max(lo, min(hi, v))] *)
Definition clamp (lo hi v : Z) : Z := Z.max lo (Z.min hi v).

(** ** utils/coordinates.py *)

(** The dictionary [{'x': .., 'y': .., 'z': ..}]. *)
Record sector_dict : Type := SectorDict { x : Z; y : Z; z : Z }.

(** The dictionary with keys x, y, z, sx, sy, sz: the first three are
    copied from the sector dictionary. *)
Record subsector_dict : Type :=
  SubsectorDict { sub_sector : sector_dict; sx : Z; sy : Z; sz : Z }.

(** The subsector dictionary with the key [system_pos] added. *)
Record system_dict : Type :=
  SystemDict { sys_subsector : subsector_dict; system_pos : Z }.

Definition sector_zero : sector_dict := SectorDict 0 0 0.
Definition subsector_zero : subsector_dict := SubsectorDict sector_zero 0 0 0.
Definition system_zero : system_dict := SystemDict subsector_zero 0.

(** The body of the [try] block of [get_coordinates_from_sector]. *)
Definition sector_body (location : string) : result sector_dict :=
  c0 ← index location 0;
  c1 ← index location 1;
  c2 ← index location 2;
  let x := (ord (upper_char c0) - 65)%Z in
  let y := (ord (upper_char c1) - 65)%Z in
  let z := (ord (upper_char c2) - 65)%Z in
  let x := clamp 0 25 x in
  let y := clamp 0 25 y in
  let z := clamp 0 25 z in
  Ok (SectorDict x y z).

Definition get_coordinates_from_sector (location : string) : result sector_dict :=
  if negb (truthy location) || (String.length location <? 3) then Ok sector_zero
  else try_except (sector_body location) (λ _, Ok sector_zero).

(** The inner [try] block of [get_coordinates_from_subsector]: three
    assignments followed by three clamps.  The block works on the local
    variables [sx, sy, sz], which start at 0; an exception leaves them as
    they are at that point.  The result is the value of the locals when
    the block ends, and how it ended. *)
Definition parse_offsets (subsector_part : string) : (Z * Z * Z) * result unit :=
  let '(sx0, sy0, sz0) := (0, 0, 0)%Z in
  match c ← index subsector_part 0; int c with
  | Raise e => ((sx0, sy0, sz0), Raise e)
  | Ok v0 =>
    let sx1 := (v0 - 1)%Z in
    match c ← index subsector_part 1; int c with
    | Raise e => ((sx1, sy0, sz0), Raise e)
    | Ok v1 =>
      let sy1 := (v1 - 1)%Z in
      match c ← index subsector_part 2; int c with
      | Raise e => ((sx1, sy1, sz0), Raise e)
      | Ok v2 =>
        let sz1 := (v2 - 1)%Z in
        ((clamp 0 9 sx1, clamp 0 9 sy1, clamp 0 9 sz1), Ok ())
      end
    end
  end.

(** The body of the outer [try] block. [except ValueError: pass] resumes
    after the inner block with the locals as they are; any other
    exception goes to the outer handler. *)
Definition subsector_body (location : string) : result subsector_dict :=
  let sector_part := slice_to 3 location in
  let subsector_part := slice 3 6 location in
  sector_coords ← get_coordinates_from_sector sector_part;
  let '((sx, sy, sz), outcome) := parse_offsets subsector_part in
  match outcome with
  | Ok _ | Raise ValueError => Ok (SubsectorDict sector_coords sx sy sz)
  | Raise e => Raise e
  end.

Definition get_coordinates_from_subsector (location : string) : result subsector_dict :=
  if negb (truthy location) || (String.length location <? 6) then Ok subsector_zero
  else try_except (subsector_body location) (λ _, Ok subsector_zero).

(** The inner [try] block of [get_coordinates_from_system], on the local
    [system_pos] (initially 0). *)
Definition parse_system_pos (location : string) : Z * result unit :=
  match c ← index location 6; int c with
  | Raise e => (0%Z, Raise e)
  | Ok v => (clamp 0 9 (v - 1), Ok ())
  end.

Definition system_body (location : string) : result system_dict :=
  let subsector_part := slice_to 6 location in
  let '(system_pos, outcome) := parse_system_pos location in
  match outcome with
  | Ok _ | Raise ValueError =>
      subsector_coords ← get_coordinates_from_subsector subsector_part;
      Ok (SystemDict subsector_coords system_pos)
  | Raise e => Raise e
  end.

Definition get_coordinates_from_system (location : string) : result system_dict :=
  if negb (truthy location) || (String.length location <? 7) then Ok system_zero
  else try_except (system_body location) (λ _, Ok system_zero).

(** A Python float as far as this module produces one: [math.sqrt(n)] of
    an integer [n].  The literal [0.0] is [math.sqrt(0)]. *)
Inductive pyfloat : Type := Sqrt (radicand : Z).

Definition float_zero : pyfloat := Sqrt 0.

(** [math.sqrt(n)]: [ValueError] on a negative argument. *)
Definition math_sqrt (n : Z) : result pyfloat :=
  if (n <? 0)%Z then Raise ValueError else Ok (Sqrt n).

Definition distance_body (sector1 sector2 : string) : result pyfloat :=
  coords1 ← get_coordinates_from_sector sector1;
  coords2 ← get_coordinates_from_sector sector2;
  let dx := (x coords2 - x coords1)%Z in
  let dy := (y coords2 - y coords1)%Z in
  let dz := (z coords2 - z coords1)%Z in
  math_sqrt (dx * dx + dy * dy + dz * dz).

Definition calculate_sector_distance (sector1 sector2 : string) : result pyfloat :=
  if negb (truthy sector1) || negb (truthy sector2) then Ok float_zero
  else try_except (distance_body sector1 sector2) (λ _, Ok float_zero).

(** [str(c)] of a character, for the f-strings *)
Definition str1 (c : ascii) : string := String c "".

(** ["-".join(parts)], which is what the two f-strings of the slash
    branch build *)
Fixpoint join_dash (parts : list string) : string :=
  match parts with
  | [] => ""
  | [p] => p
  | p :: ps => p +:+ "-" +:+ join_dash ps
  end.

Definition format_body (location : string) : result string :=
  let n := String.length location in
  if n =? 3 then Ok location
  else if n =? 6 then
    Ok (slice_to 3 location +:+ "-" +:+ slice_from 3 location)
  else if n =? 7 then
    c6 ← index location 6;
    Ok (slice_to 3 location +:+ "-" +:+ slice 3 6 location +:+ "-" +:+ str1 c6)
  else if n =? 8 then
    c6 ← index location 6;
    c7 ← index location 7;
    Ok (slice_to 3 location +:+ "-" +:+ slice 3 6 location +:+ "-" +:+ str1 c6
          +:+ "-" +:+ str1 c7)
  else if contains "/" location then
    let parts := split_slash location in
    if length parts =? 3 then Ok (join_dash parts)
    else if length parts =? 4 then Ok (join_dash parts)
    else Ok location
  else Ok location.

Definition format_location (location : string) : result string :=
  if negb (truthy location) then Ok ""
  else try_except (format_body location) (λ _, Ok location).

(** ** utils/data_loader.py *)

(** A row of one of the four tables, as the dictionary [dict(row)].  The
    backing store gives every row an integer [id], which is what
    [.get('id', 0)] and [.get('id')] read; a row whose id is NULL, absent
    or not an integer is outside the model.  The text columns read through
    [.get(key, '')] or tested for truth hold [""] when the column is
    missing or NULL, which the code never tells apart from the empty
    string. *)
Record row : Type := Row {
  id : Z;
  location : string;
  owner : string;
  nav : string;
  note : string;
  date : string
}.

(** What the store answers for one table: its name is not in
    [sqlite_master], or [SELECT *] raises, or it returns rows.  A failing
    table-list query makes [_get_table_list] return [[]], which is all
    four tables being [NoTable]. *)
Inductive table : Type :=
  | NoTable
  | BadTable
  | Table (rows : list row).

Record database : Type := Database {
  db_exists : bool;      (* os.path.exists(db_path) *)
  db_connects : bool;    (* sqlite3.connect(db_path) succeeds *)
  db_sectors : table;
  db_subsectors : table;
  db_systems : table;
  db_planets : table
}.

(** A connection object: open until its [close()] is called. *)
Inductive connection : Type := Connection (closed : bool).

Definition sqlite3_connect (db : database) : result connection :=
  if db_connects db then Ok (Connection false) else Raise OperationalError.

(** The attributes of a [DataLoader] instance. *)
Record DataLoader : Type := mkDataLoader {
  sectors : list row;
  subsectors : list row;
  systems : list row;
  planets : list row;
  conn : option connection;
  sector_codes : gset string;
  sector_by_code : gmap string Z;
  subsector_by_code : gmap string Z;
  system_by_code : gmap string Z
}.

(** [DataLoader.__init__] *)
Definition init : DataLoader :=
  mkDataLoader [] [] [] [] None ∅ ∅ ∅ ∅.

Definition set_sectors (v : list row) (st : DataLoader) : DataLoader :=
  mkDataLoader v (subsectors st) (systems st) (planets st) (conn st)
    (sector_codes st) (sector_by_code st) (subsector_by_code st) (system_by_code st).
Definition set_subsectors (v : list row) (st : DataLoader) : DataLoader :=
  mkDataLoader (sectors st) v (systems st) (planets st) (conn st)
    (sector_codes st) (sector_by_code st) (subsector_by_code st) (system_by_code st).
Definition set_systems (v : list row) (st : DataLoader) : DataLoader :=
  mkDataLoader (sectors st) (subsectors st) v (planets st) (conn st)
    (sector_codes st) (sector_by_code st) (subsector_by_code st) (system_by_code st).
Definition set_planets (v : list row) (st : DataLoader) : DataLoader :=
  mkDataLoader (sectors st) (subsectors st) (systems st) v (conn st)
    (sector_codes st) (sector_by_code st) (subsector_by_code st) (system_by_code st).
Definition set_conn (v : option connection) (st : DataLoader) : DataLoader :=
  mkDataLoader (sectors st) (subsectors st) (systems st) (planets st) v
    (sector_codes st) (sector_by_code st) (subsector_by_code st) (system_by_code st).
Definition set_sector_codes (v : gset string) (st : DataLoader) : DataLoader :=
  mkDataLoader (sectors st) (subsectors st) (systems st) (planets st) (conn st)
    v (sector_by_code st) (subsector_by_code st) (system_by_code st).
Definition set_sector_by_code (v : gmap string Z) (st : DataLoader) : DataLoader :=
  mkDataLoader (sectors st) (subsectors st) (systems st) (planets st) (conn st)
    (sector_codes st) v (subsector_by_code st) (system_by_code st).
Definition set_subsector_by_code (v : gmap string Z) (st : DataLoader) : DataLoader :=
  mkDataLoader (sectors st) (subsectors st) (systems st) (planets st) (conn st)
    (sector_codes st) (sector_by_code st) v (system_by_code st).
Definition set_system_by_code (v : gmap string Z) (st : DataLoader) : DataLoader :=
  mkDataLoader (sectors st) (subsectors st) (systems st) (planets st) (conn st)
    (sector_codes st) (sector_by_code st) (subsector_by_code st) v.

(** [{r.get('location', '') for r in rows if r.get('location')}] *)
Definition codes_of (rows : list row) : gset string :=
  list_to_set (filter (λ c, truthy c = true) (location <$> rows)).

(** [{r.get('location'): r.get('id') for r in rows if r.get('location')}]:
    a later row replaces an earlier one with the same location. *)
Definition by_code_of (rows : list row) : gmap string Z :=
  foldl (λ m r, if truthy (location r) then <[location r := id r]> m else m) ∅ rows.

(** The four [_load_*] methods; each is called only when its table is
    listed.  A failing query empties the collection and leaves the index
    attributes as they were. *)
Definition _load_sectors (db : database) (st : DataLoader) : DataLoader :=
  match db_sectors db with
  | Table rows =>
      set_sector_by_code (by_code_of rows)
        (set_sector_codes (codes_of rows) (set_sectors rows st))
  | _ => set_sectors [] st
  end.

Definition _load_subsectors (db : database) (st : DataLoader) : DataLoader :=
  match db_subsectors db with
  | Table rows => set_subsector_by_code (by_code_of rows) (set_subsectors rows st)
  | _ => set_subsectors [] st
  end.

Definition _load_systems (db : database) (st : DataLoader) : DataLoader :=
  match db_systems db with
  | Table rows => set_system_by_code (by_code_of rows) (set_systems rows st)
  | _ => set_systems [] st
  end.

Definition _load_planets (db : database) (st : DataLoader) : DataLoader :=
  match db_planets db with
  | Table rows => set_planets rows st
  | _ => set_planets [] st
  end.

(** ['name' in tables] *)
Definition listed (t : table) : bool :=
  match t with NoTable => false | _ => true end.

(** [max([sector.get('id', 0) for sector in rows], default=0)], on rows
    whose ids are integers.  (With a NULL id among them [max()] raises
    [TypeError].) *)
Definition max_id (rows : list row) : Z :=
  match rows with
  | [] => 0
  | r :: rs => foldl Z.max (id r) (id <$> rs)
  end.

Definition stub_sector (next_id : Z) (sector_code note current_date : string) : row :=
  Row next_id sector_code "" "Unexplored Sector" note current_date.

(** [self.sectors.append(stub); self.sector_codes.add(code);
    self.sector_by_code[code] = next_id] *)
Definition add_sector (stub : row) (st : DataLoader) : DataLoader :=
  set_sector_by_code (<[location stub := id stub]> (sector_by_code st))
    (set_sector_codes ({[location stub]} ∪ sector_codes st)
      (set_sectors (sectors st ++ [stub]) st)).

(** [_create_specific_sector].  The [try] block of the method has nothing
    that raises on rows with integer ids, so its [except] branch, which
    would leave the loader as it is, is not taken. *)
Definition _create_specific_sector (current_date sector_code : string)
    (st : DataLoader) : DataLoader :=
  if bool_decide (sector_code ∈ sector_codes st) then st
  else
    let next_id := (max_id (sectors st) + 1)%Z in
    add_sector
      (stub_sector next_id sector_code "Manually created stub sector" current_date) st.

(** The sector code read off a planet location: [parts[0]] of the split
    when the location has a slash, else its first three characters. *)
Definition planet_sector_code (location : string) : result string :=
  if contains "/" location then
    match split_slash location with
    | p :: _ => Ok p
    | [] => Raise IndexError
    end
  else Ok (slice_to 3 location).

(** One turn of each of the three scanning loops, on the set
    [missing_sectors].  The inner [except] of the loop skips the row. *)
Definition scan_code (codes : gset string) (sector_code : result string)
    (missing : gset string) : gset string :=
  match sector_code with
  | Ok sector_code =>
      if truthy sector_code && bool_decide (sector_code ∉ codes)
      then {[sector_code]} ∪ missing else missing
  | Raise _ => missing
  end.

Definition scan_planet (codes : gset string) (missing : gset string) (planet : row)
    : gset string :=
  let location := location planet in
  if truthy location && (3 <=? String.length location)
  then scan_code codes (planet_sector_code location) missing
  else missing.

Definition scan_prefix (codes : gset string) (missing : gset string) (r : row)
    : gset string :=
  let location := location r in
  if truthy location && (3 <=? String.length location)
  then scan_code codes (Ok (slice_to 3 location)) missing
  else missing.

Definition missing_sectors (st : DataLoader) : gset string :=
  let codes := sector_codes st in
  let missing := foldl (scan_planet codes) ∅ (planets st) in
  let missing := foldl (scan_prefix codes) missing (systems st) in
  foldl (scan_prefix codes) missing (subsectors st).

(** One turn of the loop that creates the stubs, on the loader and the
    counter [next_id]. *)
Definition create_stub (current_date : string) (acc : DataLoader * Z)
    (sector_code : string) : DataLoader * Z :=
  let '(st, next_id) := acc in
  (add_sector
     (stub_sector next_id sector_code "Automatically generated stub sector" current_date)
     st,
   (next_id + 1)%Z).

(** The four guarded calls of [load] that fill the collections. *)
Definition load_tables (db : database) (st : DataLoader) : DataLoader :=
  let st := if listed (db_sectors db) then _load_sectors db st else st in
  let st := if listed (db_subsectors db) then _load_subsectors db st else st in
  let st := if listed (db_systems db) then _load_systems db st else st in
  if listed (db_planets db) then _load_planets db st else st.

(** [any(sector.get('location') == 'ANM' for sector in self.sectors)] *)
Definition anm_exists (st : DataLoader) : bool :=
  existsb (λ sector, bool_decide (location sector = "ANM")) (sectors st).

(** The [except] branch of [load]. *)
Definition load_failed (st : DataLoader) : DataLoader :=
  set_planets [] (set_systems [] (set_subsectors [] (set_sectors [] st))).

Section Loader.

(** The order in which a [for] loop visits a Python set is not fixed by
    the language; the loader is defined for any such order. *)
Variable set_order : gset string → list string.

(** [_create_stub_sectors].  The [try] block of the method has nothing
    that raises on text locations and integer ids, so its [except]
    branch, which would leave the loader without any stub, is not
    taken. *)
Definition _create_stub_sectors (current_date : string) (st : DataLoader)
    : DataLoader :=
  let missing := missing_sectors st in
  let next_id := (max_id (sectors st) + 1)%Z in
  fst (foldl (create_stub current_date) (st, next_id) (set_order missing)).

(** What [load] does once the connection is open.  [date1] and [date2]
    are the two readings of the clock. *)
Definition load_connected (db : database) (date1 date2 : string) (c : connection)
    (st : DataLoader) : DataLoader :=
  let st := set_conn (Some c) st in
  let st := load_tables db st in
  let st := _create_stub_sectors date1 st in
  if negb (anm_exists st) then _create_specific_sector date2 "ANM" st else st.

Definition load (db : database) (date1 date2 : string) (st : DataLoader)
    : result DataLoader :=
  if negb (db_exists db) then Raise FileNotFoundError
  else match sqlite3_connect db with
       | Ok c => Ok (load_connected db date1 date2 c st)
       | Raise _ => Ok (load_failed st)
       end.

End Loader.

(** [DataLoader.close] *)
Definition close (st : DataLoader) : DataLoader :=
  match conn st with
  | Some _ => set_conn None st
  | None => st
  end.

(** The loader holds a connection that has not been closed. *)
Definition holds_open_connection (st : DataLoader) : Prop :=
  conn st = Some (Connection false).

(** ** app.py: the cache of Wyvern locations *)

(** The additions made for one planet that passed the owner test. *)
Definition add_wyvern_planet (location : string) (cache : gset string) : gset string :=
  let cache := {[location]} ∪ cache in
  let cache :=
    if 7 <=? String.length location then
      let cache := {[slice_to 7 location]} ∪ cache in
      if 6 <=? String.length location then
        let cache := {[slice_to 6 location]} ∪ cache in
        if 3 <=? String.length location then
          {[slice_to 3 location]} ∪ cache
        else cache
      else cache
    else cache in
  if contains "/" location then
    let parts := split_slash location in
    match parts with
    | p0 :: rest =>
        let cache := {[p0]} ∪ cache in
        match rest with
        | p1 :: rest' =>
            let cache := {[p0 +:+ p1]} ∪ cache in
            match rest' with
            | p2 :: _ => {[p0 +:+ p1 +:+ p2]} ∪ cache
            | [] => cache
            end
        | [] => cache
        end
    | [] => cache
    end
  else cache.

(** One turn of the loop over the planets.  A row read from the store
    has columns, so the test [if not planet] never skips it. *)
Definition cache_planet (cache : gset string) (planet : row) : gset string :=
  let owner := owner planet in
  let location := location planet in
  if truthy owner && contains "WYVERN SUPREMACY" (upper owner) && truthy location
  then add_wyvern_planet location cache
  else cache.

Definition build_wyvern_locations_cache (planets : list row) : gset string :=
  foldl cache_planet ∅ planets.

Definition is_wyvern_location (wyvern_locations : gset string) (location_code : string)
    : bool :=
  if negb (truthy location_code) then false
  else bool_decide (location_code ∈ wyvern_locations).

(** ** Re-encoding of sector coordinates *)

(** The letter of an axis value, [chr(65 + i)], as the map views label the
    axes (A = 0 .. Z = 25). *)
Definition axis_letter (i : Z) : ascii := chr (65 + i).

(** The sector code of a coordinate triple: one letter per axis. *)
Definition sector_code_of (d : sector_dict) : string :=
  String (axis_letter (x d)) (String (axis_letter (y d)) (String (axis_letter (z d)) "")).

(** A text of ASCII characters: every code is below 128. *)
Fixpoint is_ascii (s : string) : bool :=
  match s with
  | "" => true
  | String c s' => (ord c <? 128)%Z && is_ascii s'
  end.

(** A character in A-Z. *)
Definition is_AZ (c : ascii) : bool := ((65 <=? ord c) && (ord c <=? 90))%Z.

(** A valid sector code: exactly three characters, each in A-Z. *)
Definition valid_sector_code (s : string) : bool :=
  match s with
  | String c0 (String c1 (String c2 "")) => is_AZ c0 && is_AZ c1 && is_AZ c2
  | _ => false
  end.

(** ** Predicates on the loader *)

(** Some record of the collection has this location. *)
Definition has_location (rows : list row) (code : string) : Prop :=
  ∃ r, r ∈ rows ∧ location r = code.

(** Every location held by the loader, over the four collections. *)
Definition all_locations (st : DataLoader) : list string :=
  location <$> (sectors st ++ subsectors st ++ systems st ++ planets st).

(** Prefix containment at the three parent levels, for the codes of
    length 6, 7 and 8. *)
Definition prefix_containment (st : DataLoader) : Prop :=
  ∀ code, code ∈ all_locations st →
    let n := String.length code in
    n = 6 ∨ n = 7 ∨ n = 8 →
    has_location (sectors st) (slice_to 3 code) ∧
    (n = 7 ∨ n = 8 → has_location (subsectors st) (slice_to 6 code)) ∧
    (n = 8 → has_location (systems st) (slice_to 7 code)).

(** The set [sector_codes] names only sectors the loader holds. *)
Definition codes_sound (st : DataLoader) : Prop :=
  ∀ c, c ∈ sector_codes st → has_location (sectors st) c.

(** The records appended by the stub loop started with counter
    [next_id] over the codes [codes], in the order of the loop. *)
Fixpoint stubs_from (current_date : string) (next_id : Z) (codes : list string)
    : list row :=
  match codes with
  | [] => []
  | sector_code :: codes' =>
      stub_sector next_id sector_code "Automatically generated stub sector" current_date
        :: stubs_from current_date (next_id + 1) codes'
  end.

(** ** utils/data_loader.py: lookups and queries *)

(** [get_sector_by_code]: [None] for an empty (or absent) code, else the
    first sector whose location is the code. *)
Definition get_sector_by_code (st : DataLoader) (sector_code : string) : option row :=
  if negb (truthy sector_code) then None
  else List.find (λ sector, bool_decide (location sector = sector_code)) (sectors st).

(** The three [get_*_id_by_code] methods share one body: the dictionary
    first, then a scan of the collection.  The argument [None] is the
    Python [None].  (For the empty code the scan compares with the stored
    text, so there a NULL location and an empty one differ; the statements
    below are about non-empty codes.) *)
Definition id_by_code (by_code : gmap string Z) (rows : list row)
    (code : option string) : option Z :=
  match code with
  | None => None
  | Some code =>
      match by_code !! code with
      | Some i => Some i
      | None =>
          id <$> List.find (λ r, bool_decide (location r = code)) rows
      end
  end.

Definition get_sector_id_by_code (st : DataLoader) (code : option string) : option Z :=
  id_by_code (sector_by_code st) (sectors st) code.

Definition get_subsector_id_by_code (st : DataLoader) (code : option string) : option Z :=
  id_by_code (subsector_by_code st) (subsectors st) code.

Definition get_system_id_by_code (st : DataLoader) (code : option string) : option Z :=
  id_by_code (system_by_code st) (systems st) code.

(** The four lookups by id share one body: the first row with the id. *)
Definition by_id (rows : list row) (i : option Z) : option row :=
  match i with
  | None => None
  | Some i => List.find (λ r, bool_decide (id r = i)) rows
  end.

Definition get_sector (st : DataLoader) (sector_id : option Z) : option row :=
  by_id (sectors st) sector_id.
Definition get_subsector (st : DataLoader) (subsector_id : option Z) : option row :=
  by_id (subsectors st) subsector_id.
Definition get_system (st : DataLoader) (system_id : option Z) : option row :=
  by_id (systems st) system_id.
Definition get_planet (st : DataLoader) (planet_id : option Z) : option row :=
  by_id (planets st) planet_id.

(** [[s for s in rows if s.get('location') and
      s.get('location').startswith(code)]] *)
Definition with_prefix (code : string) (rows : list row) : list row :=
  List.filter (λ s, truthy (location s) && startswith code (location s)) rows.

(** The three relational queries share one body: the parent by id, then
    the children by prefix. *)
Definition children_of (parent : option row) (rows : list row) : list row :=
  match parent with
  | None => []
  | Some parent =>
      if negb (truthy (location parent)) then []
      else with_prefix (location parent) rows
  end.

Definition get_subsectors_for_sector (st : DataLoader) (sector_id : option Z)
    : list row :=
  match sector_id with
  | None => []
  | Some _ => children_of (get_sector st sector_id) (subsectors st)
  end.

Definition get_systems_for_subsector (st : DataLoader) (subsector_id : option Z)
    : list row :=
  match subsector_id with
  | None => []
  | Some _ => children_of (get_subsector st subsector_id) (systems st)
  end.

Definition get_planets_for_system (st : DataLoader) (system_id : option Z)
    : list row :=
  match system_id with
  | None => []
  | Some _ => children_of (get_system st system_id) (planets st)
  end.

(** The dictionary of [get_stats]. *)
Record stats : Type := Stats {
  n_sectors : nat; n_subsectors : nat; n_systems : nat; n_planets : nat
}.

Definition get_stats (st : DataLoader) : stats :=
  Stats (length (sectors st)) (length (subsectors st))
        (length (systems st)) (length (planets st)).

(** What a [get_*_details] method adds to the copy of the row: the
    children, and the parent found by code with its id ([None] when the
    method does not write these keys). *)
Record details : Type := Details {
  d_row : row;
  d_children : list row;
  d_parent : option row;
  d_parent_id : option Z
}.

Definition get_sector_details (st : DataLoader) (sector_id : option Z)
    : option details :=
  match get_sector st sector_id with
  | None => None
  | Some sector =>
      Some (Details sector (get_subsectors_for_sector st sector_id) None None)
  end.

Definition get_subsector_details (st : DataLoader) (subsector_id : option Z)
    : option details :=
  match get_subsector st subsector_id with
  | None => None
  | Some subsector =>
      let systems := get_systems_for_subsector st subsector_id in
      let location := location subsector in
      let parent :=
        if truthy location && (3 <=? String.length location)
        then get_sector_by_code st (slice_to 3 location) else None in
      Some (Details subsector systems parent (id <$> parent))
  end.

Definition get_system_details (st : DataLoader) (system_id : option Z)
    : option details :=
  match get_system st system_id with
  | None => None
  | Some system =>
      let planets := get_planets_for_system st system_id in
      let subsector_code := slice_to 6 (location system) in
      let parent :=
        if truthy (location system) && (6 <=? String.length (location system))
        then List.find (λ subsector, bool_decide (location subsector = subsector_code))
               (subsectors st)
        else None in
      Some (Details system planets parent (id <$> parent))
  end.

(** The planet details have no children key. *)
Definition get_planet_details (st : DataLoader) (planet_id : option Z)
    : option details :=
  match get_planet st planet_id with
  | None => None
  | Some planet =>
      let system_code := slice_to 7 (location planet) in
      let parent :=
        if truthy (location planet) && (7 <=? String.length (location planet))
        then List.find (λ system, bool_decide (location system = system_code))
               (systems st)
        else None in
      Some (Details planet [] parent (id <$> parent))
  end.

(** ** app.py: selection *)

(** The optional parent-id columns read by the selection methods,
    [row.get("sector_id")] and the like: [None] when the column is missing
    or NULL.  They are taken as functions of the row. *)
Record parent_columns : Type := ParentColumns {
  sector_id : row → option Z;
  subsector_id : row → option Z;
  system_id : row → option Z
}.

(** Truthiness of an id read from a column: [None] and 0 are false. *)
Definition truthy_id (i : option Z) : bool :=
  match i with
  | Some v => negb (v =? 0)%Z
  | None => false
  end.

(** The four selection attributes of the application.  The selection
    methods are modelled by what they do to these attributes; their calls
    that redraw the views are left out. *)
Record selection : Type := Selection {
  selected_sector : option Z;
  selected_subsector : option Z;
  selected_system : option Z;
  selected_planet : option Z
}.

Definition set_selected_sector (v : option Z) (sel : selection) : selection :=
  Selection v (selected_subsector sel) (selected_system sel) (selected_planet sel).
Definition set_selected_subsector (v : option Z) (sel : selection) : selection :=
  Selection (selected_sector sel) v (selected_system sel) (selected_planet sel).

(** [clear_selection] *)
Definition clear_selection : selection := Selection None None None None.

(** [select_sector] *)
Definition select_sector (sel : selection) (sector_id : option Z) : selection :=
  match sector_id with
  | None => sel
  | Some _ => Selection sector_id None None None
  end.

(** [select_sector_by_code]: the new selection and the Boolean returned.
    The second loop of the method scans for the same record as
    [get_sector_by_code] and is reached only when there is none. *)
Definition select_sector_by_code (st : DataLoader) (sel : selection)
    (sector_code : string) : selection * bool :=
  if negb (truthy sector_code) then (sel, false)
  else match get_sector_by_code st sector_code with
       | Some sector => (Selection (Some (id sector)) None None None, true)
       | None =>
           match List.find (λ sector, bool_decide (location sector = sector_code))
                   (sectors st) with
           | Some sector => (Selection (Some (id sector)) None None None, true)
           | None => (sel, false)
           end
       end.

(** [for r in rows: if r.get('location') == code: ... break]: the first
    row with the location. *)
Definition find_by_location (code : string) (rows : list row) : option row :=
  List.find (λ r, bool_decide (location r = code)) rows.

(** The sector selected from a location of three characters or more,
    when a sector has its first three characters as location. *)
Definition select_parent_sector (st : DataLoader) (location : string)
    (sel : selection) : selection :=
  match get_sector_by_code st (slice_to 3 location) with
  | Some parent_sector => set_selected_sector (Some (id parent_sector)) sel
  | None => sel
  end.

Section Selection.

Variable cols : parent_columns.

(** [select_subsector] *)
Definition select_subsector (st : DataLoader) (sel : selection)
    (subsector_id : option Z) : selection :=
  match subsector_id with
  | None => sel
  | Some _ =>
      let sel := Selection (selected_sector sel) subsector_id None None in
      match get_subsector st subsector_id with
      | Some subsector =>
          let sector_id := sector_id cols subsector in
          if truthy_id sector_id then set_selected_sector sector_id sel
          else
            let location := location subsector in
            if truthy location && (3 <=? String.length location)
            then select_parent_sector st location sel
            else sel
      | None => sel
      end
  end.

(** The walk from a subsector record up to its sector by the stored id,
    as [select_system] and [select_planet] do it. *)
Definition select_by_subsector_id (st : DataLoader) (subsector_id : option Z)
    (sel : selection) : selection :=
  let sel := set_selected_subsector subsector_id sel in
  match get_subsector st subsector_id with
  | Some subsector =>
      let sector_id := sector_id cols subsector in
      if truthy_id sector_id then set_selected_sector sector_id sel else sel
  | None => sel
  end.

(** The loop over the subsectors of [select_system] and [select_planet]:
    the first subsector whose location is the first six characters of
    [location], then the sector by code; [break] ends the loop there. *)
Definition select_by_subsector_code (st : DataLoader) (location : string)
    (sel : selection) : selection :=
  let subsector_code := slice_to 6 location in
  match find_by_location subsector_code (subsectors st) with
  | Some subsector =>
      let sel := set_selected_subsector (Some (id subsector)) sel in
      if 3 <=? String.length location
      then select_parent_sector st location sel
      else sel
  | None => sel
  end.

(** [select_system] *)
Definition select_system (st : DataLoader) (sel : selection)
    (system_id : option Z) : selection :=
  match system_id with
  | None => sel
  | Some _ =>
      let sel := Selection (selected_sector sel) (selected_subsector sel)
                   system_id None in
      match get_system st system_id with
      | Some system =>
          let subsector_id := subsector_id cols system in
          if truthy_id subsector_id then select_by_subsector_id st subsector_id sel
          else
            let location := location system in
            if truthy location && (6 <=? String.length location)
            then select_by_subsector_code st location sel
            else sel
      | None => sel
      end
  end.

(** [select_planet] *)
Definition select_planet (st : DataLoader) (sel : selection)
    (planet_id : option Z) : selection :=
  match planet_id with
  | None => sel
  | Some _ =>
      let sel := Selection (selected_sector sel) (selected_subsector sel)
                   (selected_system sel) planet_id in
      match get_planet st planet_id with
      | Some planet =>
          let system_id := system_id cols planet in
          if truthy_id system_id then
            let sel := Selection (selected_sector sel) (selected_subsector sel)
                         system_id (selected_planet sel) in
            match get_system st system_id with
            | Some system =>
                let subsector_id := subsector_id cols system in
                if truthy_id subsector_id
                then select_by_subsector_id st subsector_id sel
                else sel
            | None => sel
            end
          else
            let planet_location := location planet in
            if truthy planet_location && (7 <=? String.length planet_location)
            then
              let system_code := slice_to 7 planet_location in
              match find_by_location system_code (systems st) with
              | Some system =>
                  let sel := Selection (selected_sector sel) (selected_subsector sel)
                               (Some (id system)) (selected_planet sel) in
                  let location := location system in
                  if truthy location && (6 <=? String.length location)
                  then select_by_subsector_code st location sel
                  else sel
              | None => sel
              end
            else sel
      | None => sel
      end
  end.

End Selection.

(** ** Text operations used to state properties of [format_location] *)

(** [s.replace('/', '-')] *)
Fixpoint replace_slash (s : string) : string :=
  match s with
  | "" => ""
  | String c s' =>
      String (if bool_decide (c = "/"%char) then "-"%char else c) (replace_slash s')
  end.

(** [s.replace('-', '')] *)
Fixpoint strip_dashes (s : string) : string :=
  match s with
  | "" => ""
  | String c s' =>
      if bool_decide (c = "-"%char) then strip_dashes s' else String c (strip_dashes s')
  end.

(** ** Predicates on the indices *)

(** Every entry of a code index names a row of the collection, by its
    location and id. *)
Definition index_sound (by_code : gmap string Z) (rows : list row) : Prop :=
  ∀ c i, by_code !! c = Some i → ∃ r, r ∈ rows ∧ location r = c ∧ id r = i.

(** Every sector with a location is named by the set [sector_codes]. *)
Definition codes_complete (st : DataLoader) : Prop :=
  ∀ r, r ∈ sectors st → location r ≠ "" → location r ∈ sector_codes st.

(** A row without its timestamp. *)
Definition undated (r : row) : row :=
  Row (id r) (location r) (owner r) (nav r) (note r) "".

(** Two loader states that differ at most in the timestamps of their
    sector records. *)
Definition same_up_to_dates (st st' : DataLoader) : Prop :=
  undated <$> sectors st = undated <$> sectors st'
  ∧ subsectors st = subsectors st' ∧ systems st = systems st'
  ∧ planets st = planets st' ∧ conn st = conn st'
  ∧ sector_codes st = sector_codes st'
  ∧ sector_by_code st = sector_by_code st'
  ∧ subsector_by_code st = subsector_by_code st'
  ∧ system_by_code st = system_by_code st'.

(** One turn of the dictionary comprehension of [by_code_of]. *)
Definition index_row (m : gmap string Z) (r : row) : gmap string Z :=
  if truthy (location r) then <[location r := id r]> m else m.

(** [self.sector_by_code[r['location']] = r['id']] *)
Definition insert_row (m : gmap string Z) (r : row) : gmap string Z :=
  <[location r := id r]> m.

(** The part of [load] that follows the reading of the tables: the stub
    pass and the forced sector. *)
Definition repair (set_order : gset string → list string) (date1 date2 : string)
    (st : DataLoader) : DataLoader :=
  let st := _create_stub_sectors set_order date1 st in
  if negb (anm_exists st) then _create_specific_sector date2 "ANM" st else st.

(** ** Sample stores *)

Definition sample_row (i : Z) (loc own : string) : row := Row i loc own "" "" "".

(** No table but planets, with one planet. *)
Definition db_one_planet : database :=
  Database true true NoTable NoTable NoTable (Table [sample_row 1 "MMM22211" ""]).

(** Two real sectors, and entities in two sectors that have no record. *)
Definition db_two_sectors : database :=
  Database true true
    (Table [sample_row 5 "ABC" ""; sample_row 3 "XYZ" ""])
    (Table [sample_row 1 "QQQ111" ""])
    (Table [sample_row 1 "ABC1231" ""])
    (Table [sample_row 1 "MMM22211" ""; sample_row 2 "ZZ/123/4" ""]).

(** A path that exists and cannot be opened as a database. *)
Definition db_unreachable : database :=
  Database true false NoTable NoTable NoTable NoTable.

(** A store with no table. *)
Definition db_no_tables : database :=
  Database true true NoTable NoTable NoTable NoTable.

(** A store whose sectors table is listed and cannot be read. *)
Definition db_bad_sectors : database :=
  Database true true BadTable NoTable NoTable NoTable.

(** Rows without any of the parent-id columns. *)
Definition no_parent_columns : parent_columns :=
  ParentColumns (λ _, None) (λ _, None) (λ _, None).

(** * Properties of the coordinate codec *)

Section Codec.

Local Open Scope Z_scope.
Local Arguments get_coordinates_from_sector : simpl never.
Local Arguments get_coordinates_from_subsector : simpl never.

Lemma clamp_range lo hi v : lo ≤ hi → lo ≤ clamp lo hi v ≤ hi.
Proof. unfold clamp. lia. Qed.

Lemma index_in_range s (i : nat) :
  (i < String.length s)%nat → ∃ c, index s i = Ok c.
Proof.
  revert i. induction s as [|a s IH]; intros i Hi; simpl in *; [lia|].
  destruct i as [|i]; [by eexists|]. apply IH. lia.
Qed.

Lemma truthy_length s : truthy s = true ↔ (0 < String.length s)%nat.
Proof. destruct s; simpl; split; (done || lia). Qed.

Lemma int_range c v : int c = Ok v → 0 ≤ v ≤ 9.
Proof.
  unfold int. destruct (_ && _) eqn:E; [|done].
  intros [= <-]. apply andb_prop in E as [?%Z.leb_le ?%Z.leb_le]. lia.
Qed.

(** The [try] block of the sector decoder does not raise once the guard
    has let the string through, and its components are clamped. *)
Lemma sector_body_ok s :
  (3 ≤ String.length s)%nat →
  ∃ d, sector_body s = Ok d ∧ 0 ≤ x d ≤ 25 ∧ 0 ≤ y d ≤ 25 ∧ 0 ≤ z d ≤ 25.
Proof.
  intros Hlen.
  destruct s as [|c0 [|c1 [|c2 s]]]; simpl in Hlen; try lia.
  eexists. split; [reflexivity|]. simpl.
  repeat split; apply clamp_range; lia.
Qed.

Lemma sector_total s :
  ∃ d, get_coordinates_from_sector s = Ok d
       ∧ 0 ≤ x d ≤ 25 ∧ 0 ≤ y d ≤ 25 ∧ 0 ≤ z d ≤ 25
       ∧ ((String.length s < 3)%nat → d = sector_zero).
Proof.
  unfold get_coordinates_from_sector.
  destruct (negb (truthy s) || (String.length s <? 3)%nat) eqn:G.
  - exists sector_zero. simpl. repeat split; lia || done.
  - apply orb_false_elim in G as [_ G%Nat.ltb_ge].
    destruct (sector_body_ok s G) as (d & -> & ?). exists d. simpl.
    repeat split; try tauto. lia.
Qed.

Lemma short_guard s (n : nat) :
  (String.length s < n)%nat → negb (truthy s) || (String.length s <? n)%nat = true.
Proof. intros H%Nat.ltb_lt. rewrite H. apply orb_true_r. Qed.

Lemma subsector_total s :
  ∃ d, get_coordinates_from_subsector s = Ok d
       ∧ ((String.length s < 6)%nat → d = subsector_zero).
Proof.
  unfold get_coordinates_from_subsector.
  destruct (negb (truthy s) || (String.length s <? 6)%nat) eqn:G.
  - by exists subsector_zero.
  - apply orb_false_elim in G as [_ G%Nat.ltb_ge].
    destruct (subsector_body s) as [d|e]; simpl; eexists; (split; [done|lia]).
Qed.

Lemma system_total s :
  ∃ d, get_coordinates_from_system s = Ok d
       ∧ 0 ≤ system_pos d ≤ 8
       ∧ ((String.length s < 7)%nat → d = system_zero).
Proof.
  unfold get_coordinates_from_system.
  destruct (negb (truthy s) || (String.length s <? 7)%nat) eqn:G.
  - exists system_zero. simpl. repeat split; lia || done.
  - apply orb_false_elim in G as [_ G%Nat.ltb_ge].
    unfold system_body, parse_system_pos.
    destruct (subsector_total (slice_to 6 s)) as (d6 & Hd6 & _).
    set (p := slice_to 6 s) in *. clearbody p.
    destruct (index_in_range s 6 ltac:(lia)) as [c ->]. simpl.
    destruct (int c) as [v|e] eqn:Hint; simpl.
    + rewrite Hd6. simpl. eexists. split; [done|]. simpl.
      apply int_range in Hint. unfold clamp. split; [lia|]. intros; lia.
    + destruct e; simpl; try rewrite Hd6; simpl; eexists;
        (split; [done|]); simpl; (split; [lia|intros; lia]).
Qed.

Lemma distance_total s1 s2 :
  ∃ n, calculate_sector_distance s1 s2 = Ok (Sqrt n) ∧ 0 ≤ n
       ∧ (s1 = "" ∨ s2 = "" → n = 0).
Proof.
  unfold calculate_sector_distance.
  destruct (negb (truthy s1) || negb (truthy s2)) eqn:G.
  - exists 0. by repeat split.
  - apply orb_false_elim in G as [G1%negb_false_iff G2%negb_false_iff].
    unfold distance_body.
    destruct (sector_total s1) as (d1 & -> & _).
    destruct (sector_total s2) as (d2 & -> & _). simpl.
    unfold math_sqrt.
    set (n := _ + _ + _).
    assert (0 ≤ n) as Hn.
    { pose proof (Z.square_nonneg (x d2 - x d1)).
      pose proof (Z.square_nonneg (y d2 - y d1)).
      pose proof (Z.square_nonneg (z d2 - z d1)).
      unfold n. lia. }
    destruct (n <? 0) eqn:E; [apply Z.ltb_lt in E; lia|]. simpl.
    exists n. repeat split; [done|].
    intros [->| ->]; done.
Qed.

Lemma format_total s :
  ∃ r, format_location s = Ok r
       ∧ (s = "" → r = "")
       ∧ (String.length s ≠ 3%nat → String.length s ≠ 6%nat →
          String.length s ≠ 7%nat → String.length s ≠ 8%nat →
          contains "/" s = false → r = s).
Proof.
  unfold format_location.
  destruct (negb (truthy s)) eqn:G.
  - exists "". repeat split. intros. destruct s; done.
  - assert (s ≠ "") as Hne by (intros ->; done).
    destruct (format_body s) as [r|e] eqn:Hb; simpl.
    + exists r. repeat split; [done|]. intros H3 H6 H7 H8 Hs.
      unfold format_body in Hb.
      apply Nat.eqb_neq in H3, H6, H7, H8.
      rewrite H3, H6, H7, H8, Hs in Hb. congruence.
    + by exists s.
Qed.

End Codec.

Section CodecClaims.

Local Open Scope Z_scope.

Lemma axis_roundtrip c :
  is_AZ c = true → axis_letter (clamp 0 25 (ord (upper_char c) - 65)) = c.
Proof. destruct c as [[] [] [] [] [] [] [] []]; by vm_compute. Qed.

(** C5. Decoding a valid sector code (three letters A-Z) with
    [get_coordinates_from_sector] and writing each axis value back as a
    letter (A = 0 .. Z = 25) gives the code again. *)
Theorem sector_decode_encode_roundtrip (code : string) :
  valid_sector_code code = true →
  ∃ d, get_coordinates_from_sector code = Ok d ∧ sector_code_of d = code.
Proof.
  destruct code as [|c0 [|c1 [|c2 [|? ?]]]]; simpl; try done.
  intros [[H0 H1]%andb_prop H2]%andb_prop.
  eexists. split; [reflexivity|].
  unfold sector_code_of. simpl.
  by rewrite !axis_roundtrip.
Qed.

Lemma sector_decode_encode_roundtrip_witness :
  valid_sector_code "ANM" = true ∧
  ∃ d, get_coordinates_from_sector "ANM" = Ok d ∧ sector_code_of d = "ANM".
Proof.
  split; [reflexivity | apply (sector_decode_encode_roundtrip "ANM"); reflexivity].
Defined.

(** When the three characters after the sector part are digits, the
    inner block runs to its end and the offsets are the digits minus
    one, cut to the range 0..8. *)
Lemma parse_offsets_digits c0 c1 c2 v0 v1 v2 rest :
  int c0 = Ok v0 → int c1 = Ok v1 → int c2 = Ok v2 →
  ∃ a b c, parse_offsets (String c0 (String c1 (String c2 rest))) = ((a, b, c), Ok ())
    ∧ a = Z.max 0 (v0 - 1) ∧ b = Z.max 0 (v1 - 1) ∧ c = Z.max 0 (v2 - 1)
    ∧ 0 ≤ a ≤ 8 ∧ 0 ≤ b ≤ 8 ∧ 0 ≤ c ≤ 8.
Proof.
  intros H0 H1 H2. unfold parse_offsets. simpl. rewrite H0, H1, H2.
  apply int_range in H0, H1, H2.
  do 3 eexists. split; [reflexivity|]. unfold clamp. lia.
Qed.

(** C6, at the input where the code leaves the range: a leading 0 digit
    followed by a non-digit.  The first offset is assigned -1, the
    second conversion raises [ValueError] before the clamping lines are
    reached, and the handler keeps the locals as they are: the
    dictionary returned has [sx = -1].  With "MMM5x3" the digit 3 of the
    last position is never read. *)
Theorem subsector_offset_escapes_clamp :
  get_coordinates_from_subsector "MMM0a1"
    = Ok (SubsectorDict (SectorDict 12 12 12) (-1) 0 0)
  ∧ ¬ (0 ≤ -1 ≤ 8)
  ∧ get_coordinates_from_subsector "MMM5x3"
    = Ok (SubsectorDict (SectorDict 12 12 12) 4 0 0)
  ∧ get_coordinates_from_subsector "MMM222"
    = Ok (SubsectorDict (SectorDict 12 12 12) 1 1 1).
Proof. repeat split; try reflexivity. lia. Qed.

(** C7, as stated, fails: a sector code that is too short but not empty
    decodes as the origin, and the distance to another sector is then
    not 0.0; characters past Z are clamped to 25, not zeroed. *)
Lemma codec_default_counterexample :
  (String.length "A" < 3)%nat
  ∧ calculate_sector_distance "A" "ZZZ" = Ok (Sqrt 1875)
  ∧ Sqrt 1875 ≠ float_zero
  ∧ valid_sector_code "{{{" = false
  ∧ get_coordinates_from_sector "{{{" = Ok (SectorDict 25 25 25).
Proof. repeat split; try reflexivity; (simpl; lia) || done. Qed.

(** C7, amended. Each codec function returns a value for every string;
    no exception leaves it.  The three decoders return all zeroes when
    the string is shorter than 3, 6 and 7 characters; the sector axes
    are always within 0..25 and the system position within 0..8; the
    distance is the square root of a non-negative integer, and is 0.0
    when one argument is empty; [format_location] returns the empty
    string for the empty string and the string itself when it has none
    of the lengths 3, 6, 7, 8 and no slash. *)
Theorem codec_total_with_defaults :
  (∀ s, ∃ d, get_coordinates_from_sector s = Ok d
             ∧ 0 ≤ x d ≤ 25 ∧ 0 ≤ y d ≤ 25 ∧ 0 ≤ z d ≤ 25
             ∧ ((String.length s < 3)%nat → d = sector_zero))
  ∧ (∀ s, ∃ d, get_coordinates_from_subsector s = Ok d
             ∧ ((String.length s < 6)%nat → d = subsector_zero))
  ∧ (∀ s, ∃ d, get_coordinates_from_system s = Ok d
             ∧ 0 ≤ system_pos d ≤ 8
             ∧ ((String.length s < 7)%nat → d = system_zero))
  ∧ (∀ s1 s2, ∃ n, calculate_sector_distance s1 s2 = Ok (Sqrt n) ∧ 0 ≤ n
             ∧ (s1 = "" ∨ s2 = "" → n = 0))
  ∧ (∀ s, ∃ r, format_location s = Ok r
             ∧ (s = "" → r = "")
             ∧ (String.length s ≠ 3%nat → String.length s ≠ 6%nat →
                String.length s ≠ 7%nat → String.length s ≠ 8%nat →
                contains "/" s = false → r = s)).
Proof.
  split; [exact sector_total|].
  split; [exact subsector_total|].
  split; [exact system_total|].
  split; [exact distance_total|exact format_total].
Qed.

(** The length tests of [format_location] as one function of the
    length: which fixed-width form applies. *)
Lemma format_body_other s :
  String.length s ≠ 3%nat → String.length s ≠ 6%nat →
  String.length s ≠ 7%nat → String.length s ≠ 8%nat →
  format_body s =
    Ok (if contains "/" s
           && ((length (split_slash s) =? 3)%nat || (length (split_slash s) =? 4)%nat)
        then join_dash (split_slash s) else s).
Proof.
  intros H3 H6 H7 H8. unfold format_body.
  apply Nat.eqb_neq in H3, H6, H7, H8. rewrite H3, H6, H7, H8.
  destruct (contains "/" s); [|done]. cbn [andb].
  destruct (length (split_slash s) =? 3)%nat; [done|].
  by destruct (length (split_slash s) =? 4)%nat.
Qed.

(** C10. A string of length 6, 7 or 8 is cut at the fixed positions
    whether or not it has a slash in it; the split on slashes is tried
    only for the other lengths (3 excepted, which is returned as it
    is), and a string that fits neither form is returned unchanged. *)
Theorem format_location_fixed_width_first (s : string) :
  (String.length s = 3%nat → format_location s = Ok s)
  ∧ (String.length s = 6%nat →
       format_location s = Ok (slice_to 3 s +:+ "-" +:+ slice_from 3 s))
  ∧ (String.length s = 7%nat →
       format_location s
         = Ok (slice_to 3 s +:+ "-" +:+ slice 3 6 s +:+ "-" +:+ slice_from 6 s))
  ∧ (String.length s = 8%nat →
       format_location s
         = Ok (slice_to 3 s +:+ "-" +:+ slice 3 6 s +:+ "-" +:+ slice 6 7 s
                 +:+ "-" +:+ slice_from 7 s))
  ∧ (String.length s ≠ 3%nat → String.length s ≠ 6%nat →
     String.length s ≠ 7%nat → String.length s ≠ 8%nat →
       format_location s =
         Ok (if contains "/" s
                && ((length (split_slash s) =? 3)%nat
                    || (length (split_slash s) =? 4)%nat)
             then join_dash (split_slash s) else s)
       ∧ (contains "/" s = false → format_location s = Ok s))
  ∧ format_location "AB/C/D" = Ok "AB/-C/D"
  ∧ format_location "MMM/222/1" = Ok "MMM-222-1".
Proof.
  repeat split; try reflexivity.
  - intros H. by destruct s as [|? [|? [|? [|? ?]]]].
  - intros H. by destruct s as [|? [|? [|? [|? [|? [|? [|? ?]]]]]]].
  - intros H. by destruct s as [|? [|? [|? [|? [|? [|? [|? [|? ?]]]]]]]].
  - intros H. by destruct s as [|? [|? [|? [|? [|? [|? [|? [|? [|? ?]]]]]]]]].
  - unfold format_location. destruct s as [|c s]; [done|].
    rewrite format_body_other by done. done.
  - intros Hs. unfold format_location. destruct s as [|c s]; [done|].
    rewrite format_body_other by done. by rewrite Hs.
Qed.

End CodecClaims.

(** * Properties of the loader *)

Section LoaderFacts.

Local Open Scope Z_scope.

Lemma foldl_max_ge (l : list Z) (a : Z) :
  a ≤ foldl Z.max a l ∧ ∀ v, v ∈ l → v ≤ foldl Z.max a l.
Proof.
  revert a. induction l as [|b l IH]; intros a; simpl.
  - split; [lia|]. intros v Hv. by apply elem_of_nil in Hv.
  - destruct (IH (Z.max a b)) as [H1 H2]. split; [lia|].
    intros v [->|Hv]%elem_of_cons; [lia|by apply H2].
Qed.

(** [max_id] bounds every id of the list. *)
Lemma max_id_ge (rows : list row) (r : row) : r ∈ rows → id r ≤ max_id rows.
Proof.
  destruct rows as [|r0 rows]; [by intros ?%elem_of_nil|].
  simpl. destruct (foldl_max_ge (id <$> rows) (id r0)) as [H1 H2].
  intros [->|Hr]%elem_of_cons; [done|].
  apply H2. by apply list_elem_of_fmap_2.
Qed.

Lemma has_location_app_l rows rows' c :
  has_location rows c → has_location (rows ++ rows') c.
Proof. intros (r & Hr & <-). exists r. split; [|done]. apply elem_of_app; auto. Qed.

Lemma has_location_app_r rows rows' c :
  has_location rows' c → has_location (rows ++ rows') c.
Proof. intros (r & Hr & <-). exists r. split; [|done]. apply elem_of_app; auto. Qed.

Lemma has_location_fmap rows c : has_location rows c ↔ c ∈ location <$> rows.
Proof.
  split.
  - intros (r & Hr & <-). by apply list_elem_of_fmap_2.
  - intros (r & -> & Hr)%list_elem_of_fmap. by exists r.
Qed.

Lemma codes_of_has_location rows c : c ∈ codes_of rows → has_location rows c.
Proof.
  unfold codes_of. rewrite elem_of_list_to_set, list_elem_of_filter.
  intros [_ H]. by apply has_location_fmap.
Qed.

(** *** The stub loop *)

Lemma stubs_from_ids d n l :
  id <$> stubs_from d n l = seqZ n (Z.of_nat (length l)).
Proof.
  revert n. induction l as [|c l IH]; intros n; [done|].
  cbn [stubs_from fmap list_fmap length]. rewrite IH.
  replace (Z.of_nat (S (length l))) with (Z.succ (Z.of_nat (length l))) by lia.
  rewrite (seqZ_cons n) by lia. f_equal. f_equal; lia.
Qed.

Lemma stubs_from_locations d n l : location <$> stubs_from d n l = l.
Proof. revert n. induction l as [|c l IH]; intros n; [done|]. simpl. by rewrite IH. Qed.

Lemma stubs_from_length d n l : length (stubs_from d n l) = length l.
Proof. revert n. induction l as [|c l IH]; intros n; [done|]. simpl. by rewrite IH. Qed.

Lemma fold_create_stub d l : ∀ st n,
  let st' := fst (foldl (create_stub d) (st, n) l) in
  sectors st' = sectors st ++ stubs_from d n l
  ∧ sector_codes st' = list_to_set l ∪ sector_codes st
  ∧ subsectors st' = subsectors st ∧ systems st' = systems st
  ∧ planets st' = planets st ∧ conn st' = conn st.
Proof.
  induction l as [|c l IH]; intros st n; simpl.
  - rewrite app_nil_r. repeat split. by rewrite (left_id_L ∅ (∪)).
  - destruct (IH (add_sector (stub_sector n c
      "Automatically generated stub sector" d) st) (n + 1))
      as (H1 & H2 & H3 & H4 & H5 & H6).
    rewrite H1, H2, H3, H4, H5, H6. cbn [add_sector sectors sector_codes
      subsectors systems planets conn set_sector_by_code set_sector_codes
      set_sectors stub_sector location].
    rewrite <- app_assoc. repeat split.
    by rewrite (assoc_L (∪)), (comm_L (∪) (list_to_set l)).
Qed.

(** *** The scan for missing sector codes *)

Lemma scan_code_mono codes c missing : missing ⊆ scan_code codes c missing.
Proof. unfold scan_code. destruct c; [|done]. case_match; set_solver. Qed.

Lemma scan_planet_mono codes missing r : missing ⊆ scan_planet codes missing r.
Proof. unfold scan_planet. case_match; [apply scan_code_mono|done]. Qed.

Lemma scan_prefix_mono codes missing r : missing ⊆ scan_prefix codes missing r.
Proof. unfold scan_prefix. case_match; [apply scan_code_mono|done]. Qed.

Lemma foldl_scan_elem {A} (f : gset string → A → gset string) (c : string) :
  (∀ a r, a ⊆ f a r) →
  ∀ rows acc, (c ∈ acc ∨ ∃ r, r ∈ rows ∧ ∀ a, c ∈ f a r) → c ∈ foldl f acc rows.
Proof.
  intros Hmono. induction rows as [|r rows IH]; intros acc; simpl.
  - intros [H|(r & Hr & _)]; [done|by apply elem_of_nil in Hr].
  - intros [H|(r' & [->|Hr]%elem_of_cons & Hc)]; apply IH.
    + left. by apply Hmono.
    + by left.
    + right. eauto.
Qed.

Lemma scan_code_hit codes c missing :
  c ≠ "" → c ∉ codes → c ∈ scan_code codes (Ok c) missing.
Proof.
  intros Hc Hn. unfold scan_code.
  assert (truthy c = true) as -> by (by destruct c).
  rewrite bool_decide_eq_true_2 by done. set_solver.
Qed.

Lemma long_enough_guard s :
  (3 ≤ String.length s)%nat → truthy s && (3 <=? String.length s)%nat = true.
Proof.
  intros H. apply andb_true_intro. split; [|by apply Nat.leb_le].
  apply truthy_length. lia.
Qed.

(** A sector code read off a planet, of a location of three characters
    or more, is in the sector set or is found missing. *)
Lemma missing_of_planet st r c :
  r ∈ planets st → (3 ≤ String.length (location r))%nat →
  planet_sector_code (location r) = Ok c → c ≠ "" →
  c ∈ sector_codes st ∨ c ∈ missing_sectors st.
Proof.
  intros Hr Hlen Hc Hne.
  destruct (decide (c ∈ sector_codes st)) as [?|Hn]; [by left|right].
  unfold missing_sectors.
  apply foldl_scan_elem; [apply scan_prefix_mono|left].
  apply foldl_scan_elem; [apply scan_prefix_mono|left].
  apply foldl_scan_elem; [apply scan_planet_mono|right].
  exists r. split; [done|]. intros a. unfold scan_planet.
  rewrite long_enough_guard, Hc by done. by apply scan_code_hit.
Qed.

Lemma slice_to_3_nonempty s : (3 ≤ String.length s)%nat → slice_to 3 s ≠ "".
Proof. destruct s; simpl; [lia|done]. Qed.

Lemma missing_of_system st r :
  r ∈ systems st → (3 ≤ String.length (location r))%nat →
  slice_to 3 (location r) ∈ sector_codes st
  ∨ slice_to 3 (location r) ∈ missing_sectors st.
Proof.
  intros Hr Hlen.
  destruct (decide (slice_to 3 (location r) ∈ sector_codes st)) as [?|Hn];
    [by left|right].
  unfold missing_sectors.
  apply foldl_scan_elem; [apply scan_prefix_mono|left].
  apply foldl_scan_elem; [apply scan_prefix_mono|right].
  exists r. split; [done|]. intros a. unfold scan_prefix.
  rewrite long_enough_guard by done.
  apply scan_code_hit; [by apply slice_to_3_nonempty|done].
Qed.

Lemma missing_of_subsector st r :
  r ∈ subsectors st → (3 ≤ String.length (location r))%nat →
  slice_to 3 (location r) ∈ sector_codes st
  ∨ slice_to 3 (location r) ∈ missing_sectors st.
Proof.
  intros Hr Hlen.
  destruct (decide (slice_to 3 (location r) ∈ sector_codes st)) as [?|Hn];
    [by left|right].
  unfold missing_sectors.
  apply foldl_scan_elem; [apply scan_prefix_mono|right].
  exists r. split; [done|]. intros a. unfold scan_prefix.
  rewrite long_enough_guard by done.
  apply scan_code_hit; [by apply slice_to_3_nonempty|done].
Qed.

(** *** Identifiers handed out by a counter *)

Lemma seqZ_sorted m (k : nat) : StronglySorted Z.lt (seqZ m (Z.of_nat k)).
Proof.
  revert m. induction k as [|k IH]; intros m.
  - rewrite seqZ_nil by lia. constructor.
  - rewrite seqZ_cons by lia.
    replace (Z.pred (Z.of_nat (S k))) with (Z.of_nat k) by lia.
    constructor; [apply IH|]. apply Forall_seqZ. intros; lia.
Qed.

Lemma sorted_lt_NoDup (l : list Z) : StronglySorted Z.lt l → NoDup l.
Proof.
  induction 1 as [|a l Hs IH Hall]; constructor; [|done].
  intros Ha. rewrite Forall_forall in Hall. specialize (Hall _ Ha). lia.
Qed.

(** Stubs numbered from the maximum plus one, followed by at most one
    forced record numbered from the new maximum plus one, have ids above
    every earlier id, in increasing order and without repetition. *)
Lemma ids_fresh_sorted (existing stubs forced : list row) :
  id <$> stubs = seqZ (max_id existing + 1) (Z.of_nat (length stubs)) →
  (forced = [] ∨ ∃ r, forced = [r] ∧ id r = max_id (existing ++ stubs) + 1) →
  (∀ r s, r ∈ existing → s ∈ stubs ++ forced → id r < id s)
  ∧ StronglySorted Z.lt (id <$> (stubs ++ forced))
  ∧ NoDup (id <$> (stubs ++ forced)).
Proof.
  intros Hids Hforced.
  assert (∀ s, s ∈ stubs → max_id existing + 1 ≤ id s) as Hstub.
  { intros s Hs. apply (list_elem_of_fmap_2 id) in Hs.
    rewrite Hids in Hs. apply elem_of_seqZ in Hs. lia. }
  assert (∀ r s, r ∈ existing ++ stubs → s ∈ forced → id r < id s) as Hf.
  { intros r s Hr Hs. destruct Hforced as [->|(r0 & -> & Hr0)].
    - by apply elem_of_nil in Hs.
    - apply list_elem_of_singleton in Hs as ->. apply max_id_ge in Hr. lia. }
  assert (StronglySorted Z.lt (id <$> (stubs ++ forced))) as Hsorted.
  { rewrite fmap_app. apply StronglySorted_app_2.
    - intros x1 x2 (s1 & -> & Hs1)%list_elem_of_fmap (s2 & -> & Hs2)%list_elem_of_fmap.
      apply Hf; [|done]. apply elem_of_app; auto.
    - rewrite Hids. apply seqZ_sorted.
    - destruct Hforced as [->|(r0 & -> & _)]; repeat constructor. }
  split; [|split; [done|by apply sorted_lt_NoDup]].
  intros r s Hr [Hs|Hs]%elem_of_app.
  - apply max_id_ge in Hr. apply Hstub in Hs. lia.
  - apply Hf; [|done]. apply elem_of_app; auto.
Qed.

End LoaderFacts.

Section LoaderClaims.

Local Open Scope Z_scope.

Variable set_order : gset string → list string.

(** The loop over the set visits each of its elements. *)
Hypothesis set_order_complete : ∀ (X : gset string) c, c ∈ X → c ∈ set_order X.

(** *** The stub pass and the forced sector, step by step *)

Lemma stub_pass_spec d st :
  let st' := _create_stub_sectors set_order d st in
  sectors st' = sectors st
      ++ stubs_from d (max_id (sectors st) + 1) (set_order (missing_sectors st))
  ∧ sector_codes st' = list_to_set (set_order (missing_sectors st)) ∪ sector_codes st
  ∧ subsectors st' = subsectors st ∧ systems st' = systems st
  ∧ planets st' = planets st ∧ conn st' = conn st.
Proof. unfold _create_stub_sectors. apply fold_create_stub. Qed.

Lemma stub_pass_sound d st :
  codes_sound st → codes_sound (_create_stub_sectors set_order d st).
Proof.
  intros Hs c. destruct (stub_pass_spec d st) as (H1 & H2 & _).
  rewrite H1, H2. intros [Hc|Hc]%elem_of_union.
  - apply has_location_app_r, has_location_fmap.
    rewrite stubs_from_locations. by apply elem_of_list_to_set in Hc.
  - by apply has_location_app_l, Hs.
Qed.

Lemma anm_exists_spec st : anm_exists st = true ↔ has_location (sectors st) "ANM".
Proof.
  unfold anm_exists, has_location. rewrite existsb_exists.
  split; intros (r & Hr & H); exists r.
  - split; [by apply list_elem_of_In|by apply bool_decide_eq_true in H].
  - split; [by apply list_elem_of_In|by apply bool_decide_eq_true].
Qed.

Lemma specific_spec d code st :
  let st' := _create_specific_sector d code st in
  (sectors st' = sectors st ∧ code ∈ sector_codes st
   ∨ sectors st' = sectors st
        ++ [stub_sector (max_id (sectors st) + 1) code
              "Manually created stub sector" d])
  ∧ subsectors st' = subsectors st ∧ systems st' = systems st
  ∧ planets st' = planets st ∧ conn st' = conn st.
Proof.
  unfold _create_specific_sector. case_bool_decide; simpl; [|by auto 10].
  split; [by left|done].
Qed.

(** *** Filling the collections *)

Lemma load_tables_conn db st : conn (load_tables db st) = conn st.
Proof.
  unfold load_tables, _load_sectors, _load_subsectors, _load_systems, _load_planets.
  by destruct (db_sectors db), (db_subsectors db), (db_systems db), (db_planets db).
Qed.

Lemma load_tables_sound db st :
  codes_sound st → db_sectors db ≠ BadTable → codes_sound (load_tables db st).
Proof.
  intros Hs Hbad.
  unfold load_tables, _load_sectors, _load_subsectors, _load_systems, _load_planets.
  destruct (db_sectors db) as [| |rows]; [|done|];
    destruct (db_subsectors db), (db_systems db), (db_planets db);
    intros c Hc; unfold has_location; simpl in *;
    solve [by apply Hs | by apply codes_of_has_location].
Qed.

Lemma set_conn_sound c st : codes_sound st → codes_sound (set_conn c st).
Proof. done. Qed.

(** The loader after the stub pass, and what the forced sector adds. *)
Lemma load_connected_spec db d1 d2 c st :
  let st0 := load_tables db (set_conn (Some c) st) in
  let st1 := _create_stub_sectors set_order d1 st0 in
  let st' := load_connected set_order db d1 d2 c st in
  ∃ forced,
    sectors st' = sectors st1 ++ forced
    ∧ (forced = []
       ∨ forced = [stub_sector (max_id (sectors st1) + 1) "ANM"
                     "Manually created stub sector" d2])
    ∧ (codes_sound st1 → forced = [] → has_location (sectors st1) "ANM")
    ∧ subsectors st' = subsectors st1 ∧ systems st' = systems st1
    ∧ planets st' = planets st1 ∧ conn st' = conn st1.
Proof.
  intros st0 st1 st'. unfold st', load_connected. fold st0. fold st1.
  destruct (anm_exists st1) eqn:Hanm; simpl.
  - exists []. rewrite app_nil_r. repeat split; auto.
    intros _ _. by apply anm_exists_spec.
  - destruct (specific_spec d2 "ANM" st1) as ([[Hs Hin]|Hs] & H2 & H3 & H4 & H5).
    + exists []. rewrite app_nil_r. repeat split; auto.
    + eexists. repeat split; eauto.
      intros Hsound [=].
Qed.

Lemma specific_sound d code st :
  codes_sound st → codes_sound (_create_specific_sector d code st).
Proof.
  intros Hs. unfold _create_specific_sector. case_bool_decide; [done|].
  intros c. cbn [add_sector sector_codes sectors set_sector_by_code
    set_sector_codes set_sectors stub_sector location].
  intros [->%elem_of_singleton|Hc]%elem_of_union.
  - apply has_location_app_r. eexists. split; [apply list_elem_of_singleton|]; done.
  - by apply has_location_app_l, Hs.
Qed.

(** A load that opens its connection and reads the sectors table (or
    finds none) leaves [sector_codes] naming only sectors the loader
    holds: the condition of the statements below carries over from one
    load to the next. *)
Lemma load_connected_sound db d1 d2 c st :
  codes_sound st → db_sectors db ≠ BadTable →
  codes_sound (load_connected set_order db d1 d2 c st).
Proof.
  intros Hs Hbad. unfold load_connected. cbv zeta.
  assert (codes_sound (_create_stub_sectors set_order d1
    (load_tables db (set_conn (Some c) st)))) as Hs1.
  { apply stub_pass_sound, load_tables_sound; [by apply set_conn_sound|done]. }
  destruct (negb _); [by apply specific_sound|done].
Qed.

(** C4. The ids given to the stub sectors of one load are consecutive
    from the maximum id of the sectors read from the store plus one (1
    when there is none), in the order in which the stubs are created;
    the sector forced after the stub pass gets the maximum over real and
    stub sectors plus one.  All of them are above every id read from the
    store, strictly increasing in order of creation, and pairwise
    distinct. *)
Theorem stub_ids_unique_and_increasing db d1 d2 st :
  db_exists db = true → db_connects db = true →
  ∃ st' stubs forced,
    load set_order db d1 d2 st = Ok st'
    ∧ let existing :=
        sectors (load_tables db (set_conn (Some (Connection false)) st)) in
      sectors st' = existing ++ stubs ++ forced
      ∧ id <$> stubs = seqZ (max_id existing + 1) (Z.of_nat (length stubs))
      ∧ (forced = [] ∨ ∃ r, forced = [r] ∧ id r = max_id (existing ++ stubs) + 1)
      ∧ (∀ r s, r ∈ existing → s ∈ stubs ++ forced → id r < id s)
      ∧ StronglySorted Z.lt (id <$> (stubs ++ forced))
      ∧ NoDup (id <$> (stubs ++ forced)).
Proof.
  intros He Hc. unfold load, sqlite3_connect. rewrite He, Hc. simpl.
  set (st0 := load_tables db (set_conn (Some (Connection false)) st)).
  destruct (load_connected_spec db d1 d2 (Connection false) st)
    as (forced & Hsec & Hforced & _).
  destruct (stub_pass_spec d1 st0) as (Hstubs & _).
  cbv zeta in Hsec, Hforced. fold st0 in Hsec, Hforced.
  rewrite Hstubs in Hsec, Hforced.
  set (stubs := stubs_from d1 (max_id (sectors st0) + 1)
                  (set_order (missing_sectors st0))) in *.
  assert (id <$> stubs = seqZ (max_id (sectors st0) + 1) (Z.of_nat (length stubs)))
    as Hids by (unfold stubs; by rewrite stubs_from_ids, stubs_from_length).
  assert (forced = [] ∨ ∃ r, forced = [r] ∧ id r = max_id (sectors st0 ++ stubs) + 1)
    as Hf by (destruct Hforced as [->| ->]; [by left|right; by eexists]).
  exists (load_connected set_order db d1 d2 (Connection false) st), stubs, forced.
  split; [done|]. cbv zeta.
  split; [by rewrite Hsec, app_assoc|].
  split; [done|]. split; [done|].
  by apply ids_fresh_sorted.
Qed.

(** After the stub pass every sector code implied by a location of
    three characters or more has a sector record. *)
Lemma stub_pass_resolves d st :
  codes_sound st →
  let st' := _create_stub_sectors set_order d st in
  (∀ r, r ∈ subsectors st' ++ systems st' →
     (3 ≤ String.length (location r))%nat →
     has_location (sectors st') (slice_to 3 (location r)))
  ∧ (∀ r c, r ∈ planets st' → (3 ≤ String.length (location r))%nat →
       planet_sector_code (location r) = Ok c → c ≠ "" →
       has_location (sectors st') c).
Proof.
  intros Hsound st'.
  destruct (stub_pass_spec d st) as (H1 & H2 & H3 & H4 & H5 & _).
  fold st' in H1, H2, H3, H4, H5. rewrite H1, H3, H4, H5.
  assert (∀ c, c ∈ sector_codes st ∨ c ∈ missing_sectors st →
    has_location (sectors st
      ++ stubs_from d (max_id (sectors st) + 1) (set_order (missing_sectors st))) c)
    as Hres.
  { intros c [Hc|Hc].
    - by apply has_location_app_l, Hsound.
    - apply has_location_app_r, has_location_fmap.
      rewrite stubs_from_locations. by apply set_order_complete. }
  split.
  - intros r [Hr|Hr]%elem_of_app Hlen; apply Hres.
    + by apply missing_of_subsector.
    + by apply missing_of_system.
  - intros r c Hr Hlen Hc Hne. apply Hres. by eapply missing_of_planet.
Qed.

Lemma planet_sector_code_no_slash s :
  contains "/" s = false → planet_sector_code s = Ok (slice_to 3 s).
Proof. unfold planet_sector_code. by intros ->. Qed.


(** C9, amended. After a load that opened its connection, on rows that
    all have an integer id, on a loader whose [sector_codes] set names
    only sectors it holds (as a new loader does) and with a sectors query
    that does not fail, the sectors collection has a record with location
    "ANM", whatever the tables hold: when neither a real nor a stub sector
    has that code it is created.  When the connection cannot be opened,
    [load] returns without raising and with the four collections
    empty. *)
Theorem load_creates_ANM db d1 d2 st :
  db_exists db = true → codes_sound st → db_sectors db ≠ BadTable →
  ∃ st', load set_order db d1 d2 st = Ok st'
    ∧ (db_connects db = true → has_location (sectors st') "ANM")
    ∧ (db_connects db = false →
       sectors st' = [] ∧ subsectors st' = [] ∧ systems st' = []
       ∧ planets st' = []).
Proof.
  intros He Hsound Hbad. unfold load, sqlite3_connect. rewrite He.
  destruct (db_connects db) eqn:Hc; cbn [negb].
  - eexists. split; [done|]. split; [|done]. intros _.
    destruct (load_connected_spec db d1 d2 (Connection false) st)
      as (forced & Hsec & Hforced & Hanm & _).
    cbv zeta in Hsec, Hforced, Hanm. rewrite Hsec.
    destruct Hforced as [->| ->].
    + apply has_location_app_l, Hanm; [|done].
      apply stub_pass_sound, load_tables_sound; [by apply set_conn_sound|done].
    + apply has_location_app_r. eexists.
      split; [apply list_elem_of_singleton|]; done.
  - eexists. split; [done|]. split; [done|]. by intros _.
Qed.

(** C8, amended. [load] does not release the connection it opens: when
    the connection opens, the loader holds it, open, after [load]
    returns; it is let go only by [close], after which the loader holds
    no connection.  When the connection cannot be opened, [load] returns
    with the loader's connection attribute as it was. *)
Theorem load_keeps_connection_until_close db d1 d2 st :
  db_exists db = true →
  ∃ st', load set_order db d1 d2 st = Ok st'
    ∧ (db_connects db = true → holds_open_connection st')
    ∧ (db_connects db = false → conn st' = conn st)
    ∧ conn (close st') = None
    ∧ ¬ holds_open_connection (close st').
Proof.
  intros He. unfold load, sqlite3_connect. rewrite He. simpl.
  assert (∀ s, conn (close s) = None) as Hclose.
  { intros s. unfold close. destruct (conn s) eqn:E; [done|by rewrite E]. }
  destruct (db_connects db) eqn:Hc; eexists; (split; [done|]).
  - split; [|split; [done|]].
    + intros _. unfold holds_open_connection.
      destruct (load_connected_spec db d1 d2 (Connection false) st)
        as (forced & _ & _ & _ & _ & _ & _ & Hconn).
      cbv zeta in Hconn. rewrite Hconn.
      destruct (stub_pass_spec d1
        (load_tables db (set_conn (Some (Connection false)) st)))
        as (_ & _ & _ & _ & _ & ->).
      by rewrite load_tables_conn.
    + split; [apply Hclose|]. unfold holds_open_connection. by rewrite Hclose.
  - split; [done|]. split; [done|].
    split; [apply Hclose|]. unfold holds_open_connection. by rewrite Hclose.
Qed.

End LoaderClaims.

(** * The loader on the sample stores *)

Lemma elements_complete (X : gset string) (c : string) : c ∈ X → c ∈ elements X.
Proof. by rewrite elem_of_elements. Qed.

Lemma init_sound : codes_sound init.
Proof. intros c Hc. by apply not_elem_of_empty in Hc. Qed.

Lemma stub_ids_unique_and_increasing_witness :
  db_exists db_two_sectors = true ∧ db_connects db_two_sectors = true ∧
  ∃ st' stubs forced,
    load elements db_two_sectors "t1" "t2" init = Ok st'
    ∧ let existing :=
        sectors (load_tables db_two_sectors (set_conn (Some (Connection false)) init)) in
      sectors st' = existing ++ stubs ++ forced
      ∧ id <$> stubs = seqZ (max_id existing + 1) (Z.of_nat (length stubs))
      ∧ (forced = [] ∨ ∃ r, forced = [r] ∧ id r = (max_id (existing ++ stubs) + 1)%Z)
      ∧ (∀ r s, r ∈ existing → s ∈ stubs ++ forced → (id r < id s)%Z)
      ∧ StronglySorted Z.lt (id <$> (stubs ++ forced))
      ∧ NoDup (id <$> (stubs ++ forced)).
Proof.
  split; [reflexivity|]. split; [reflexivity|].
  apply (stub_ids_unique_and_increasing elements db_two_sectors "t1" "t2" init);
    reflexivity.
Defined.



(** C9, as stated, fails.  When the path exists and the connection cannot
    be opened, [load] returns without raising and the sectors collection
    is empty.  And on a second load of the same loader, when the sectors
    table is listed and its query fails, the set [sector_codes] still
    names ANM from the first load: the sector is not created again. *)
Lemma load_without_ANM_counterexample :
  (∃ st, load elements db_unreachable "t1" "t2" init = Ok st
         ∧ sectors st = [] ∧ ¬ has_location (sectors st) "ANM")
  ∧ (∃ st1 st2, load elements db_no_tables "t1" "t2" init = Ok st1
         ∧ has_location (sectors st1) "ANM"
         ∧ load elements db_bad_sectors "t3" "t4" st1 = Ok st2
         ∧ sectors st2 = [] ∧ ¬ has_location (sectors st2) "ANM").
Proof.
  split.
  - eexists. split; [reflexivity|]. split; [reflexivity|].
    intros (r & Hr & _). by apply elem_of_nil in Hr.
  - do 2 eexists. split; [reflexivity|]. split.
    { eexists (stub_sector 1 "ANM" "Manually created stub sector" "t2").
      split; [|done]. vm_compute. apply list_elem_of_In. simpl. tauto. }
    split; [reflexivity|].
    assert (sectors (load_connected elements db_bad_sectors "t3" "t4" (Connection false)
      (load_connected elements db_no_tables "t1" "t2" (Connection false) init)) = [])
      as Hnil by (by vm_compute).
    split; [done|]. rewrite Hnil.
    intros (r & Hr & _). by apply elem_of_nil in Hr.
Qed.

Lemma load_creates_ANM_witness :
  db_exists db_two_sectors = true ∧
  codes_sound init ∧ db_sectors db_two_sectors ≠ BadTable ∧
  ∃ st', load elements db_two_sectors "t1" "t2" init = Ok st'
    ∧ (db_connects db_two_sectors = true → has_location (sectors st') "ANM")
    ∧ (db_connects db_two_sectors = false →
       sectors st' = [] ∧ subsectors st' = [] ∧ systems st' = []
       ∧ planets st' = []).
Proof.
  split; [reflexivity|].
  split; [exact init_sound|]. split; [discriminate|].
  apply (load_creates_ANM elements db_two_sectors "t1" "t2" init);
    [reflexivity | exact init_sound | discriminate].
Defined.

(** C8, as stated, fails: after a load that opened its connection the
    loader holds it, and it is open. *)
Lemma connection_still_open_counterexample :
  ∃ st, load elements db_one_planet "t1" "t2" init = Ok st
        ∧ conn st = Some (Connection false)
        ∧ holds_open_connection st.
Proof. eexists. split; [reflexivity|]. split; reflexivity. Qed.

Lemma load_keeps_connection_until_close_witness :
  db_exists db_one_planet = true ∧
  ∃ st', load elements db_one_planet "t1" "t2" init = Ok st'
    ∧ (db_connects db_one_planet = true → holds_open_connection st')
    ∧ (db_connects db_one_planet = false → conn st' = conn init)
    ∧ conn (close st') = None
    ∧ ¬ holds_open_connection (close st').
Proof.
  split; [reflexivity|].
  apply (load_keeps_connection_until_close elements db_one_planet "t1" "t2" init).
  reflexivity.
Defined.

(** * Properties of the cache of Wyvern locations *)

Section Cache.

Lemma add_wyvern_planet_mono loc (cache : gset string) :
  cache ⊆ add_wyvern_planet loc cache.
Proof.
  unfold add_wyvern_planet.
  repeat (case_match; try set_solver).
Qed.

Lemma cache_planet_mono (cache : gset string) p : cache ⊆ cache_planet cache p.
Proof. unfold cache_planet. case_match; [apply add_wyvern_planet_mono|done]. Qed.

(** The owner test passes only on a non-empty owner. *)
Lemma marker_truthy own :
  contains "WYVERN SUPREMACY" (upper own) = true → truthy own = true.
Proof. by destruct own. Qed.

Lemma cache_planet_owned (cache : gset string) p :
  contains "WYVERN SUPREMACY" (upper (owner p)) = true → location p ≠ "" →
  cache_planet cache p = add_wyvern_planet (location p) cache.
Proof.
  intros Hown Hloc. unfold cache_planet.
  rewrite Hown, (marker_truthy _ Hown). by destruct (location p).
Qed.

(** What the nested length tests add: the three prefixes, once the
    location has seven characters or more. *)
Lemma add_wyvern_planet_long loc (cache : gset string) :
  7 ≤ String.length loc →
  loc ∈ add_wyvern_planet loc cache
  ∧ slice_to 7 loc ∈ add_wyvern_planet loc cache
  ∧ slice_to 6 loc ∈ add_wyvern_planet loc cache
  ∧ slice_to 3 loc ∈ add_wyvern_planet loc cache.
Proof.
  intros Hlen. unfold add_wyvern_planet.
  assert ((7 <=? String.length loc) = true) as -> by (apply Nat.leb_le; lia).
  assert ((6 <=? String.length loc) = true) as -> by (apply Nat.leb_le; lia).
  assert ((3 <=? String.length loc) = true) as -> by (apply Nat.leb_le; lia).
  repeat case_match; set_solver.
Qed.


(** C2, at an input where the code leaves the claim: a planet of the
    marked owner with a six-character location.  The tests for lengths
    6 and 3 are nested under the test for length 7, so only the location
    itself is added: the sector MMM is not in the cache although the
    code MMM222 is. The same holds for a five-character location. *)
Theorem short_code_ancestors_not_cached :
  let cache :=
    build_wyvern_locations_cache [sample_row 1 "MMM222" "Wyvern Supremacy"] in
  let cache5 :=
    build_wyvern_locations_cache [sample_row 1 "MMM22" "Wyvern Supremacy"] in
  contains "WYVERN SUPREMACY" (upper "Wyvern Supremacy") = true
  ∧ 6 ≤ String.length "MMM222"
  ∧ is_wyvern_location cache "MMM222" = true
  ∧ is_wyvern_location cache (slice_to 3 "MMM222") = false
  ∧ elements cache = ["MMM222"]
  ∧ is_wyvern_location cache5 (slice_to 3 "MMM22") = false.
Proof. repeat split; by vm_compute. Qed.

(** C3, as stated, fails: built from the planet MMM/2/2/1 the cache has
    the sector MMM and not the subsector MMM222. *)
Lemma slash_code_counterexample :
  let cache1 := build_wyvern_locations_cache
                  [sample_row 1 "MMM/2/2/1" "Wyvern Supremacy Fleet Command"] in
  let cache2 := build_wyvern_locations_cache
                  [sample_row 1 "MMM2221" "Wyvern Supremacy Fleet Command"] in
  is_wyvern_location cache1 "MMM222" = false
  ∧ ¬ (is_wyvern_location cache1 "MMM" = true
       ∧ is_wyvern_location cache1 "MMM222" = true
       ∧ is_wyvern_location cache2 "MMM" = true
       ∧ is_wyvern_location cache2 "MMM222" = true).
Proof.
  assert (is_wyvern_location (build_wyvern_locations_cache
    [sample_row 1 "MMM/2/2/1" "Wyvern Supremacy Fleet Command"]) "MMM222" = false)
    as H by (by vm_compute).
  split; [exact H|]. intros (_ & H' & _). cbv zeta in H'. congruence.
Qed.

(** C3, amended. The planet codes MMM/2/2/1 and MMM2221 of the marked
    owner both give the sector entry MMM.  The subsector entry MMM222
    comes from the fixed-width code only: from MMM/2/2/1 the entries
    built from the parts are MMM, MMM2 and MMM22.  The slash form whose
    parts are the sector, the three subsector digits and the system
    digit, MMM/222/1, gives MMM, MMM222 and MMM2221 like the fixed-width
    code. *)
Theorem slash_and_fixed_width_entries (i : Z) (own : string) :
  contains "WYVERN SUPREMACY" (upper own) = true →
  let cache1 := build_wyvern_locations_cache [sample_row i "MMM/2/2/1" own] in
  let cache2 := build_wyvern_locations_cache [sample_row i "MMM2221" own] in
  let cache3 := build_wyvern_locations_cache [sample_row i "MMM/222/1" own] in
  is_wyvern_location cache1 "MMM" = true
  ∧ is_wyvern_location cache2 "MMM" = true
  ∧ is_wyvern_location cache2 "MMM222" = true
  ∧ is_wyvern_location cache1 "MMM222" = false
  ∧ is_wyvern_location cache1 "MMM2" = true
  ∧ is_wyvern_location cache1 "MMM22" = true
  ∧ is_wyvern_location cache3 "MMM" = true
  ∧ is_wyvern_location cache3 "MMM222" = true
  ∧ is_wyvern_location cache3 "MMM2221" = true.
Proof.
  intros Hown cache1 cache2 cache3.
  unfold cache1, cache2, cache3, build_wyvern_locations_cache.
  cbn [foldl]. rewrite !cache_planet_owned by done.
  cbn [location sample_row].
  repeat split; by vm_compute.
Qed.

Lemma slash_and_fixed_width_entries_witness :
  contains "WYVERN SUPREMACY" (upper "Wyvern Supremacy Fleet Command") = true ∧
  let own := "Wyvern Supremacy Fleet Command" in
  let cache1 := build_wyvern_locations_cache [sample_row 1 "MMM/2/2/1" own] in
  let cache2 := build_wyvern_locations_cache [sample_row 1 "MMM2221" own] in
  let cache3 := build_wyvern_locations_cache [sample_row 1 "MMM/222/1" own] in
  is_wyvern_location cache1 "MMM" = true
  ∧ is_wyvern_location cache2 "MMM" = true
  ∧ is_wyvern_location cache2 "MMM222" = true
  ∧ is_wyvern_location cache1 "MMM222" = false
  ∧ is_wyvern_location cache1 "MMM2" = true
  ∧ is_wyvern_location cache1 "MMM22" = true
  ∧ is_wyvern_location cache3 "MMM" = true
  ∧ is_wyvern_location cache3 "MMM222" = true
  ∧ is_wyvern_location cache3 "MMM2221" = true.
Proof.
  split; [reflexivity|].
  apply (slash_and_fixed_width_entries 1 "Wyvern Supremacy Fleet Command").
  reflexivity.
Defined.

End Cache.


(** * Further properties of the coordinate codec *)

Section CodecMore.

Local Open Scope Z_scope.

Lemma upper_char_idemp c : upper_char (upper_char c) = upper_char c.
Proof. destruct c as [[] [] [] [] [] [] [] []]; by vm_compute. Qed.

Lemma upper_length s : String.length (upper s) = String.length s.
Proof. induction s as [|c s IH]; [done|]. simpl. by rewrite IH. Qed.

Lemma upper_truthy s : truthy (upper s) = truthy s.
Proof. by destruct s. Qed.

(** A code and its upper-case form decode to the same triple. *)
Lemma sector_decode_case_insensitive (s : string) :
  get_coordinates_from_sector (upper s) = get_coordinates_from_sector s.
Proof.
  unfold get_coordinates_from_sector. rewrite upper_length, upper_truthy.
  destruct (negb (truthy s) || (String.length s <? 3)%nat) eqn:G; [done|].
  apply orb_false_elim in G as [_ G%Nat.ltb_ge].
  destruct s as [|c0 [|c1 [|c2 s]]]; simpl in G; try lia.
  unfold sector_body. simpl. by rewrite !upper_char_idemp.
Qed.

Lemma upper_char_ascii c : (ord c <? 128)%Z = true → (ord (upper_char c) <? 128)%Z = true.
Proof. destruct c as [[] [] [] [] [] [] [] []]; by vm_compute. Qed.

Lemma upper_ascii s : is_ascii s = true → is_ascii (upper s) = true.
Proof.
  induction s as [|c s IH]; [done|]. simpl.
  intros [Hc Hs]%andb_prop. by rewrite upper_char_ascii, IH.
Qed.

(** X1. On a text of ASCII characters the sector decoder does not tell
    upper case from lower case: the upper-case form of the text is ASCII
    again, and the text and its upper-case form decode to the same
    triple. *)
Theorem sector_decode_case_insensitive_ascii (s : string) :
  is_ascii s = true →
  is_ascii (upper s) = true
  ∧ get_coordinates_from_sector (upper s) = get_coordinates_from_sector s.
Proof.
  intros Hs. split; [by apply upper_ascii|apply sector_decode_case_insensitive].
Qed.

Lemma sector_decode_case_insensitive_ascii_witness :
  is_ascii "anm" = true
  ∧ is_ascii (upper "anm") = true
  ∧ get_coordinates_from_sector (upper "anm") = get_coordinates_from_sector "anm".
Proof.
  split; [reflexivity|].
  apply (sector_decode_case_insensitive_ascii "anm"). reflexivity.
Defined.

Lemma axis_decode (i : Z) :
  0 ≤ i ≤ 25 → clamp 0 25 (ord (upper_char (axis_letter i)) - 65) = i.
Proof.
  intros Hi. assert (∃ n : nat, (n < 26)%nat ∧ i = Z.of_nat n) as (n & Hn & ->).
  { exists (Z.to_nat i). lia. }
  do 26 (destruct n as [|n]; [by vm_compute|]). lia.
Qed.

(** X2. Every coordinate triple within 0..25 is the decoding of its
    three-letter code: writing the letters and decoding them gives the
    triple again. *)
Theorem sector_encode_decode (d : sector_dict) :
  0 ≤ x d ≤ 25 → 0 ≤ y d ≤ 25 → 0 ≤ z d ≤ 25 →
  valid_sector_code (sector_code_of d) = true
  ∧ get_coordinates_from_sector (sector_code_of d) = Ok d.
Proof.
  intros Hx Hy Hz. destruct d as [a b c]. simpl in *.
  assert (∀ i, 0 ≤ i ≤ 25 → is_AZ (axis_letter i) = true) as Haz.
  { intros i Hi. assert (∃ n : nat, (n < 26)%nat ∧ i = Z.of_nat n) as (n & Hn & ->).
    { exists (Z.to_nat i). lia. }
    do 26 (destruct n as [|n]; [by vm_compute|]). lia. }
  split.
  - unfold sector_code_of, valid_sector_code. simpl. by rewrite !Haz.
  - unfold get_coordinates_from_sector, sector_code_of, sector_body. simpl.
    by rewrite !axis_decode.
Qed.

Lemma sector_encode_decode_witness :
  0 ≤ x (SectorDict 0 13 12) ≤ 25 ∧ 0 ≤ y (SectorDict 0 13 12) ≤ 25
  ∧ 0 ≤ z (SectorDict 0 13 12) ≤ 25
  ∧ valid_sector_code (sector_code_of (SectorDict 0 13 12)) = true
  ∧ get_coordinates_from_sector (sector_code_of (SectorDict 0 13 12))
    = Ok (SectorDict 0 13 12).
Proof.
  split; [simpl; lia|]. split; [simpl; lia|]. split; [simpl; lia|].
  apply (sector_encode_decode (SectorDict 0 13 12)); simpl; lia.
Defined.

(** The sector decoder reads the first three characters only. *)
Lemma sector_reads_prefix s :
  (3 ≤ String.length s)%nat →
  get_coordinates_from_sector (slice_to 3 s) = get_coordinates_from_sector s.
Proof.
  intros H. by destruct s as [|c0 [|c1 [|c2 s]]]; simpl in H; try lia.
Qed.

(** X3. The distance is symmetric in its two arguments, and the integer
    under the square root is at most 3 * 25 * 25. *)
Theorem distance_symmetric (s1 s2 : string) :
  calculate_sector_distance s1 s2 = calculate_sector_distance s2 s1
  ∧ ∃ n, calculate_sector_distance s1 s2 = Ok (Sqrt n) ∧ 0 ≤ n ≤ 1875.
Proof.
  unfold calculate_sector_distance.
  rewrite (orb_comm (negb (truthy s2))).
  destruct (negb (truthy s1) || negb (truthy s2)); [split; [done|]; exists 0; split; [done|lia]|].
  unfold distance_body.
  destruct (sector_total s1) as (d1 & -> & Hx1 & Hy1 & Hz1 & _).
  destruct (sector_total s2) as (d2 & -> & Hx2 & Hy2 & Hz2 & _). simpl.
  unfold math_sqrt.
  replace ((x d1 - x d2) * (x d1 - x d2) + (y d1 - y d2) * (y d1 - y d2)
           + (z d1 - z d2) * (z d1 - z d2))
    with ((x d2 - x d1) * (x d2 - x d1) + (y d2 - y d1) * (y d2 - y d1)
           + (z d2 - z d1) * (z d2 - z d1)) by lia.
  split; [done|].
  set (n := _ + _ + _).
  assert (∀ a, -25 ≤ a ≤ 25 → 0 ≤ a * a ≤ 625) as Hsq by (intros; nia).
  assert (0 ≤ n ≤ 1875) as Hn.
  { pose proof (Hsq (x d2 - x d1) ltac:(lia)).
    pose proof (Hsq (y d2 - y d1) ltac:(lia)).
    pose proof (Hsq (z d2 - z d1) ltac:(lia)). unfold n. lia. }
  destruct (n <? 0) eqn:E; [apply Z.ltb_lt in E; lia|]. by exists n.
Qed.

(** X4. The distance looks at the sector part only: two locations of
    three characters or more are as far apart as their sectors, and at
    distance 0.0 when their first three characters agree up to case. *)
Theorem distance_ignores_subsector (s1 s2 : string) :
  (3 ≤ String.length s1)%nat → (3 ≤ String.length s2)%nat →
  calculate_sector_distance s1 s2
    = calculate_sector_distance (slice_to 3 s1) (slice_to 3 s2)
  ∧ (upper (slice_to 3 s1) = upper (slice_to 3 s2) →
     calculate_sector_distance s1 s2 = Ok float_zero).
Proof.
  intros H1 H2.
  assert (truthy s1 = true ∧ truthy (slice_to 3 s1) = true) as [T1 T1']
    by (destruct s1; simpl in *; [lia|done]).
  assert (truthy s2 = true ∧ truthy (slice_to 3 s2) = true) as [T2 T2']
    by (destruct s2; simpl in *; [lia|done]).
  pose proof (sector_reads_prefix s1 H1) as E1.
  pose proof (sector_reads_prefix s2 H2) as E2.
  set (p1 := slice_to 3 s1) in *. set (p2 := slice_to 3 s2) in *.
  unfold calculate_sector_distance, distance_body.
  rewrite T1, T2, T1', T2', E1, E2. cbn [negb orb].
  split; [done|]. intros Hup.
  rewrite <- E1, <- E2, <- (sector_decode_case_insensitive p1), Hup,
    sector_decode_case_insensitive.
  destruct (sector_total p2) as (d & -> & _).
  cbn [mbind result_bind try_except]. by rewrite !Z.sub_diag.
Qed.

Lemma distance_ignores_subsector_witness :
  (3 ≤ String.length "MMM111")%nat ∧ (3 ≤ String.length "mmm9995")%nat
  ∧ calculate_sector_distance "MMM111" "mmm9995"
      = calculate_sector_distance (slice_to 3 "MMM111") (slice_to 3 "mmm9995")
  ∧ (upper (slice_to 3 "MMM111") = upper (slice_to 3 "mmm9995") →
     calculate_sector_distance "MMM111" "mmm9995" = Ok float_zero).
Proof.
  split; [simpl; lia|]. split; [simpl; lia|].
  apply (distance_ignores_subsector "MMM111" "mmm9995"); simpl; lia.
Defined.

End CodecMore.

Section CodecHierarchy.

Local Open Scope Z_scope.
Local Arguments get_coordinates_from_sector : simpl never.
Local Arguments get_coordinates_from_subsector : simpl never.

(** The subsector decoder reads the first six characters only. *)
Lemma subsector_reads_prefix s :
  (6 ≤ String.length s)%nat →
  get_coordinates_from_subsector (slice_to 6 s) = get_coordinates_from_subsector s.
Proof.
  intros H.
  by destruct s as [|c0 [|c1 [|c2 [|c3 [|c4 [|c5 s]]]]]]; simpl in H; try lia.
Qed.

Lemma long_guard s (n : nat) :
  (0 < n)%nat → (n ≤ String.length s)%nat →
  negb (truthy s) || (String.length s <? n)%nat = false.
Proof.
  intros Hn H. apply orb_false_intro; [|apply Nat.ltb_ge; lia].
  destruct s; simpl in *; [lia|done].
Qed.

(** X5. The three decoders agree along the hierarchy: on a location of
    seven characters or more the system decoder returns, beside the
    system position, what the subsector decoder returns on that location;
    on a location of six characters or more the subsector decoder returns,
    beside the offsets, what the sector decoder returns on it. *)
Theorem decoders_agree (s : string) :
  ((7 ≤ String.length s)%nat →
     ∃ d7, get_coordinates_from_system s = Ok d7
           ∧ get_coordinates_from_subsector s = Ok (sys_subsector d7))
  ∧ ((6 ≤ String.length s)%nat →
     ∃ d6, get_coordinates_from_subsector s = Ok d6
           ∧ get_coordinates_from_sector s = Ok (sub_sector d6)).
Proof.
  split.
  - intros H. rewrite <- subsector_reads_prefix by lia.
    unfold get_coordinates_from_system. rewrite long_guard by lia.
    unfold system_body, parse_system_pos.
    destruct (subsector_total (slice_to 6 s)) as (d6 & Hd6 & _).
    set (p := slice_to 6 s) in *. clearbody p.
    destruct (index_in_range s 6 ltac:(lia)) as [c ->].
    cbn [mbind result_bind]. unfold int.
    destruct (_ && _); cbn [try_except mbind result_bind]; rewrite Hd6;
      eexists; by split.
  - intros H. rewrite <- (sector_reads_prefix s) by lia.
    unfold get_coordinates_from_subsector. rewrite long_guard by lia.
    unfold subsector_body.
    destruct (sector_total (slice_to 3 s)) as (d3 & Hd3 & _).
    set (p := slice_to 3 s) in *. clearbody p. rewrite Hd3.
    cbn [mbind result_bind].
    destruct (parse_offsets (slice 3 6 s)) as [[[a b] c] [[]|e]] eqn:Hp;
      cbn [try_except]; [eexists; by split|].
    destruct e; try (eexists; by split).
    all: exfalso; revert Hp; unfold parse_offsets.
    all: destruct s as [|c0 [|c1 [|c2 [|c3 [|c4 [|c5 s]]]]]]; simpl in H; try lia.
    all: unfold slice; cbn [slice_from slice_to Nat.sub index mbind result_bind].
    all: unfold int; repeat (destruct (_ && _)); cbn; congruence.
Qed.

(** X6. When the fourth, fifth and sixth characters are decimal digits,
    the subsector offsets are the digits minus one, with the digit 0 read
    as offset 0; they lie in 0..8. *)
Theorem subsector_offsets_of_digits (s : string) (a b c : ascii) (va vb vc : Z) :
  index s 3 = Ok a → index s 4 = Ok b → index s 5 = Ok c →
  int a = Ok va → int b = Ok vb → int c = Ok vc →
  ∃ d, get_coordinates_from_subsector s = Ok d
       ∧ sx d = Z.max 0 (va - 1) ∧ sy d = Z.max 0 (vb - 1) ∧ sz d = Z.max 0 (vc - 1)
       ∧ 0 ≤ sx d ≤ 8 ∧ 0 ≤ sy d ≤ 8 ∧ 0 ≤ sz d ≤ 8.
Proof.
  intros Ha Hb Hc Hva Hvb Hvc.
  destruct s as [|c0 [|c1 [|c2 [|c3 [|c4 [|c5 s]]]]]]; try done.
  simpl in Ha, Hb, Hc. injection Ha as ->. injection Hb as ->. injection Hc as ->.
  unfold get_coordinates_from_subsector. rewrite long_guard by (simpl; lia).
  unfold subsector_body.
  destruct (sector_total (slice_to 3
    (String c0 (String c1 (String c2 (String a (String b (String c s))))))))
    as (d3 & -> & _).
  cbn [mbind result_bind].
  change (slice 3 6 (String c0 (String c1 (String c2 (String a (String b (String c s)))))))
    with (String a (String b (String c ""))).
  destruct (parse_offsets_digits a b c va vb vc "" Hva Hvb Hvc)
    as (oa & ob & oc & -> & -> & -> & -> & Hr).
  cbn [try_except]. eexists. split; [done|]. cbn [sx sy sz]. tauto.
Qed.

Lemma subsector_offsets_of_digits_witness :
  index "ANM190" 3 = Ok "1"%char ∧ index "ANM190" 4 = Ok "9"%char
  ∧ index "ANM190" 5 = Ok "0"%char
  ∧ int "1"%char = Ok 1 ∧ int "9"%char = Ok 9 ∧ int "0"%char = Ok 0
  ∧ ∃ d, get_coordinates_from_subsector "ANM190" = Ok d
       ∧ sx d = Z.max 0 (1 - 1) ∧ sy d = Z.max 0 (9 - 1) ∧ sz d = Z.max 0 (0 - 1)
       ∧ 0 ≤ sx d ≤ 8 ∧ 0 ≤ sy d ≤ 8 ∧ 0 ≤ sz d ≤ 8.
Proof.
  do 6 (split; [reflexivity|]).
  apply (subsector_offsets_of_digits "ANM190" "1" "9" "0" 1 9 0); reflexivity.
Defined.

End CodecHierarchy.

Section FormatMore.

Lemma split_slash_nonempty s : split_slash s ≠ [].
Proof. destruct s as [|c s]; simpl; [done|]. case_bool_decide; [done|]. by case_match. Qed.

Lemma join_dash_cons_char c p ps :
  join_dash (String c p :: ps) = String c (join_dash (p :: ps)).
Proof. by destruct ps. Qed.

(** Splitting at the slashes and joining with dashes is replacing each
    slash by a dash. *)
Lemma join_split_replace s : join_dash (split_slash s) = replace_slash s.
Proof.
  induction s as [|c s IH]; [done|].
  cbn [split_slash replace_slash]. case_bool_decide as Hc.
  - destruct (split_slash s) as [|p ps] eqn:E; [by apply split_slash_nonempty in E|].
    by rewrite <- IH.
  - destruct (split_slash s) as [|p ps] eqn:E; [by apply split_slash_nonempty in E|].
    by rewrite join_dash_cons_char, IH.
Qed.

Lemma replace_slash_length s : String.length (replace_slash s) = String.length s.
Proof. induction s as [|c s IH]; [done|]. simpl. by rewrite IH. Qed.

(** X7. A string whose length is none of 3, 6, 7, 8 and that splits at
    its slashes in three or four parts is returned with every slash
    replaced by a dash, and so with its length unchanged. *)
Theorem format_location_slash_form (s : string) :
  String.length s ≠ 3 → String.length s ≠ 6 →
  String.length s ≠ 7 → String.length s ≠ 8 →
  contains "/" s = true →
  length (split_slash s) = 3 ∨ length (split_slash s) = 4 →
  format_location s = Ok (replace_slash s)
  ∧ String.length (replace_slash s) = String.length s.
Proof.
  intros H3 H6 H7 H8 Hs Hparts. split; [|apply replace_slash_length].
  unfold format_location. destruct s as [|c s]; [done|].
  rewrite format_body_other, Hs by done. cbn [negb truthy andb try_except].
  rewrite <- join_split_replace.
  by destruct Hparts as [-> | ->].
Qed.

Lemma format_location_slash_form_witness :
  String.length "MMM/222/1" ≠ 3 ∧ String.length "MMM/222/1" ≠ 6
  ∧ String.length "MMM/222/1" ≠ 7 ∧ String.length "MMM/222/1" ≠ 8
  ∧ contains "/" "MMM/222/1" = true
  ∧ (length (split_slash "MMM/222/1") = 3 ∨ length (split_slash "MMM/222/1") = 4)
  ∧ format_location "MMM/222/1" = Ok (replace_slash "MMM/222/1")
  ∧ String.length (replace_slash "MMM/222/1") = String.length "MMM/222/1".
Proof.
  do 4 (split; [simpl; lia|]). split; [reflexivity|]. split; [left; reflexivity|].
  apply (format_location_slash_form "MMM/222/1"); simpl; lia || auto.
Defined.

Lemma strip_dashes_app a b :
  strip_dashes (a +:+ b) = strip_dashes a +:+ strip_dashes b.
Proof.
  induction a as [|c a IH]; [done|]. simpl. case_bool_decide; [done|].
  simpl. by rewrite IH.
Qed.

Lemma string_app_length a b :
  String.length (a +:+ b) = String.length a + String.length b.
Proof. induction a as [|c a IH]; [done|]. simpl. by rewrite IH. Qed.

(** X8. For a string of length 3, 6, 7 or 8 the formatted text is the
    string with dashes put in: 0, 1, 2 or 3 characters longer, and equal
    to the string once the dashes are taken out of both. *)
Theorem format_location_inserts_dashes (s : string) :
  String.length s = 3 ∨ String.length s = 6 ∨ String.length s = 7
  ∨ String.length s = 8 →
  ∃ r, format_location s = Ok r
       ∧ strip_dashes r = strip_dashes s
       ∧ String.length r
         = String.length s
           + match String.length s with 6 => 1 | 7 => 2 | 8 => 3 | _ => 0 end.
Proof.
  intros [H|[H|[H|H]]].
  - destruct s as [|? [|? [|? [|? ?]]]]; try done. eexists. by split.
  - destruct s as [|c0 [|c1 [|c2 [|c3 [|c4 [|c5 [|? ?]]]]]]]; try done.
    eexists. split; [reflexivity|]. split; [|done].
    change (strip_dashes (String c0 (String c1 (String c2 ""))
              +:+ "-" +:+ String c3 (String c4 (String c5 "")))
            = strip_dashes (String c0 (String c1 (String c2 ""))
              +:+ String c3 (String c4 (String c5 "")))).
    by rewrite !strip_dashes_app.
  - destruct s as [|c0 [|c1 [|c2 [|c3 [|c4 [|c5 [|c6 [|? ?]]]]]]]]; try done.
    eexists. split; [reflexivity|]. split; [|done].
    change (strip_dashes (String c0 (String c1 (String c2 ""))
              +:+ "-" +:+ String c3 (String c4 (String c5 ""))
              +:+ "-" +:+ String c6 "")
            = strip_dashes (String c0 (String c1 (String c2 ""))
              +:+ String c3 (String c4 (String c5 "")) +:+ String c6 "")).
    by rewrite !strip_dashes_app.
  - destruct s as [|c0 [|c1 [|c2 [|c3 [|c4 [|c5 [|c6 [|c7 [|? ?]]]]]]]]]; try done.
    eexists. split; [reflexivity|]. split; [|done].
    change (strip_dashes (String c0 (String c1 (String c2 ""))
              +:+ "-" +:+ String c3 (String c4 (String c5 ""))
              +:+ "-" +:+ String c6 "" +:+ "-" +:+ String c7 "")
            = strip_dashes (String c0 (String c1 (String c2 ""))
              +:+ String c3 (String c4 (String c5 "")) +:+ String c6 ""
              +:+ String c7 "")).
    by rewrite !strip_dashes_app.
Qed.

Lemma format_location_inserts_dashes_witness :
  (String.length "MMM22211" = 3 ∨ String.length "MMM22211" = 6
   ∨ String.length "MMM22211" = 7 ∨ String.length "MMM22211" = 8)
  ∧ ∃ r, format_location "MMM22211" = Ok r
       ∧ strip_dashes r = strip_dashes "MMM22211"
       ∧ String.length r
         = String.length "MMM22211"
           + match String.length "MMM22211" with 6 => 1 | 7 => 2 | 8 => 3 | _ => 0 end.
Proof.
  split; [do 3 right; reflexivity|].
  apply (format_location_inserts_dashes "MMM22211"). do 3 right. reflexivity.
Defined.

End FormatMore.


(** * Lookups and queries of the loader *)

Section Lookups.

Lemma find_split {A} (f : A → bool) (l : list A) (a : A) :
  List.find f l = Some a →
  f a = true ∧ ∃ l1 l2, l = l1 ++ a :: l2 ∧ ∀ b, b ∈ l1 → f b = false.
Proof.
  induction l as [|b l IH]; [done|]. simpl. destruct (f b) eqn:Hb.
  - intros [= ->]. split; [done|]. exists [], l. split; [done|].
    intros ? ?%elem_of_nil. done.
  - intros (Ha & l1 & l2 & -> & Hl1)%IH. split; [done|].
    exists (b :: l1), l2. split; [done|].
    intros b' [->|?]%elem_of_cons; auto.
Qed.

Lemma find_none_elem {A} (f : A → bool) (l : list A) :
  List.find f l = None ↔ ∀ b, b ∈ l → f b = false.
Proof.
  induction l as [|b l IH]; simpl.
  - split; [|done]. intros _ ? ?%elem_of_nil. done.
  - destruct (f b) eqn:Hb.
    + split; [done|]. intros H. rewrite H in Hb; [done|]. by left.
    + rewrite IH. split.
      * intros H b' [->|?]%elem_of_cons; auto.
      * intros H b' Hb'. apply H. by right.
Qed.

Lemma find_by_location_spec code rows :
  match List.find (λ r, bool_decide (location r = code)) rows with
  | Some r => ∃ l1 l2, rows = l1 ++ r :: l2 ∧ location r = code
                       ∧ ¬ has_location l1 code
  | None => ¬ has_location rows code
  end.
Proof.
  destruct (List.find _ rows) as [r|] eqn:E.
  - apply find_split in E as (Hr%bool_decide_eq_true & l1 & l2 & -> & Hl1).
    exists l1, l2. repeat split; [done|].
    intros (r' & Hr' & Hloc). apply Hl1 in Hr'.
    by apply bool_decide_eq_false in Hr'.
  - intros (r & Hr & Hloc). rewrite find_none_elem in E.
    apply E in Hr. by apply bool_decide_eq_false in Hr.
Qed.

(** X9. [get_sector_by_code] answers [None] for the empty code; for any
    other code it returns the first sector of the collection with that
    location, and [None] exactly when no sector has it. *)
Theorem get_sector_by_code_first (st : DataLoader) (code : string) :
  get_sector_by_code st "" = None
  ∧ (code ≠ "" →
     match get_sector_by_code st code with
     | Some r => ∃ l1 l2, sectors st = l1 ++ r :: l2 ∧ location r = code
                          ∧ ¬ has_location l1 code
     | None => ¬ has_location (sectors st) code
     end).
Proof.
  split; [done|]. intros Hne. unfold get_sector_by_code.
  assert (truthy code = true) as -> by (by destruct code).
  apply find_by_location_spec.
Qed.

Lemma startswith_app p s : startswith p s = true ↔ ∃ t, s = p +:+ t.
Proof.
  revert s. induction p as [|a p IH]; intros s; simpl.
  - split; [by exists s|done].
  - destruct s as [|b s]; [split; [done|by intros [? ?]]|].
    rewrite andb_true_iff, bool_decide_eq_true, IH. split.
    + intros [-> [t ->]]. by exists t.
    + intros [t [= -> ->]]. split; [done|by exists t].
Qed.

Lemma elem_of_with_prefix code rows s :
  s ∈ with_prefix code rows ↔
  s ∈ rows ∧ location s ≠ "" ∧ ∃ t, location s = code +:+ t.
Proof.
  unfold with_prefix. rewrite list_elem_of_In, filter_In, <- list_elem_of_In.
  rewrite andb_true_iff, startswith_app.
  assert (truthy (location s) = true ↔ location s ≠ "") as ->
    by (by destruct (location s)).
  tauto.
Qed.

(** X10. The subsectors listed for a sector id are the subsectors, in
    the order of the collection, whose location is not empty and begins
    with the location of the first sector having that id; the list is
    empty when the id is [None], when no sector has it, or when that
    sector has no location.  The same holds one level down for
    [get_systems_for_subsector] and [get_planets_for_system]. *)
Theorem children_by_prefix (st : DataLoader) (i : option Z) (s : row) :
  (s ∈ get_subsectors_for_sector st i ↔
     ∃ parent, get_sector st i = Some parent ∧ location parent ≠ ""
       ∧ s ∈ subsectors st ∧ location s ≠ ""
       ∧ ∃ t, location s = location parent +:+ t)
  ∧ (s ∈ get_systems_for_subsector st i ↔
     ∃ parent, get_subsector st i = Some parent ∧ location parent ≠ ""
       ∧ s ∈ systems st ∧ location s ≠ ""
       ∧ ∃ t, location s = location parent +:+ t)
  ∧ (s ∈ get_planets_for_system st i ↔
     ∃ parent, get_system st i = Some parent ∧ location parent ≠ ""
       ∧ s ∈ planets st ∧ location s ≠ ""
       ∧ ∃ t, location s = location parent +:+ t)
  ∧ get_subsectors_for_sector st i `sublist_of` subsectors st
  ∧ get_systems_for_subsector st i `sublist_of` systems st
  ∧ get_planets_for_system st i `sublist_of` planets st.
Proof.
  assert (∀ parent rows, s ∈ children_of parent rows ↔
    ∃ p, parent = Some p ∧ location p ≠ "" ∧ s ∈ rows ∧ location s ≠ ""
         ∧ ∃ t, location s = location p +:+ t) as Hch.
  { intros [p|] rows; simpl.
    - destruct (location p) as [|a l] eqn:Hp; simpl.
      + split; [by intros ?%elem_of_nil|]. intros (p' & [= <-] & Hne & _).
        by rewrite Hp in Hne.
      + rewrite elem_of_with_prefix. split.
        * intros (? & ? & ?). exists p. rewrite Hp. by repeat split.
        * intros (p' & [= <-] & _ & ? & ? & ?). by rewrite <- Hp.
    - split; [by intros ?%elem_of_nil|]. by intros (p' & [=] & _). }
  assert (∀ parent rows, children_of parent rows `sublist_of` rows) as Hsub.
  { intros [p|] rows; simpl; [|apply sublist_nil_l].
    destruct (negb _); [apply sublist_nil_l|].
    unfold with_prefix. induction rows as [|r rows IH]; simpl; [done|].
    destruct (_ && _); by constructor. }
  unfold get_subsectors_for_sector, get_systems_for_subsector, get_planets_for_system.
  destruct i as [i|].
  - rewrite !Hch. repeat split; try apply Hsub; naive_solver.
  - repeat split; try apply sublist_nil_l;
      try (by intros ?%elem_of_nil); by intros (? & [=] & _).
Qed.

End Lookups.


(** * Invariants of the loader *)

Section LoaderInvariants.

Local Open Scope Z_scope.

(** A loop that only adds to a set, each turn adding what depends on the
    row alone. *)
Lemma foldl_union_elem {A} (f : gset string → A → gset string) (c : string) :
  (∀ a r, f a r = f ∅ r ∪ a) →
  ∀ rows acc, c ∈ foldl f acc rows ↔ c ∈ acc ∨ ∃ r, r ∈ rows ∧ c ∈ f ∅ r.
Proof.
  intros Hf. induction rows as [|r rows IH]; intros acc; simpl.
  - split; [by left|]. intros [?|(r & Hr%elem_of_nil & _)]; done.
  - rewrite IH, Hf, elem_of_union. split.
    + intros [[?|?]|(r' & ? & ?)]; [right|by left|right].
      * exists r. split; [by left|done].
      * exists r'. split; [by right|done].
    + intros [?|(r' & [->|?]%elem_of_cons & ?)]; [by left; right|by left; left|].
      right. by exists r'.
Qed.

Lemma scan_code_union codes c (a : gset string) :
  scan_code codes c a = scan_code codes c ∅ ∪ a.
Proof.
  unfold scan_code. destruct c as [c|e]; [|by rewrite (left_id_L ∅ (∪))].
  destruct (_ && _); [by rewrite (right_id_L ∅ (∪))|by rewrite (left_id_L ∅ (∪))].
Qed.

Lemma scan_planet_union codes (a : gset string) r :
  scan_planet codes a r = scan_planet codes ∅ r ∪ a.
Proof.
  unfold scan_planet. destruct (_ && _); [apply scan_code_union|].
  by rewrite (left_id_L ∅ (∪)).
Qed.

Lemma scan_prefix_union codes (a : gset string) r :
  scan_prefix codes a r = scan_prefix codes ∅ r ∪ a.
Proof.
  unfold scan_prefix. destruct (_ && _); [apply scan_code_union|].
  by rewrite (left_id_L ∅ (∪)).
Qed.

Lemma scan_code_elem codes rc c :
  c ∈ scan_code codes rc ∅ ↔ rc = Ok c ∧ c ≠ "" ∧ c ∉ codes.
Proof.
  unfold scan_code. destruct rc as [c'|e].
  - destruct (truthy c') eqn:Ht; simpl.
    + case_bool_decide as Hc; simpl.
      * rewrite (right_id_L ∅ (∪)), elem_of_singleton. split.
        -- intros ->. repeat split; [by destruct c'|done].
        -- by intros ([= ->] & _).
      * split; [by intros ?%not_elem_of_empty|]. by intros ([= ->] & _ & ?).
    + split; [by intros ?%not_elem_of_empty|].
      intros ([= ->] & ? & _). by destruct c.
  - split; [by intros ?%not_elem_of_empty|]. by intros ([=] & _).
Qed.

(** The codes found missing by the scan, seen from the set of sector
    codes: a smaller set finds at least the same codes missing. *)
Lemma scan_planet_antitone codes codes' r c :
  codes ⊆ codes' → c ∈ scan_planet codes' ∅ r →
  c ∈ scan_planet codes ∅ r ∧ c ≠ "" ∧ c ∉ codes'.
Proof.
  unfold scan_planet. intros Hsub. destruct (_ && _); [|by intros ?%not_elem_of_empty].
  rewrite !scan_code_elem. intros (? & ? & ?). repeat split; auto.
Qed.

Lemma scan_prefix_antitone codes codes' r c :
  codes ⊆ codes' → c ∈ scan_prefix codes' ∅ r →
  c ∈ scan_prefix codes ∅ r ∧ c ≠ "" ∧ c ∉ codes'.
Proof.
  unfold scan_prefix. intros Hsub. destruct (_ && _); [|by intros ?%not_elem_of_empty].
  rewrite !scan_code_elem. intros (? & ? & ?). repeat split; auto.
Qed.

Lemma missing_sectors_elem st c :
  c ∈ missing_sectors st ↔
    (∃ r, r ∈ planets st ∧ c ∈ scan_planet (sector_codes st) ∅ r)
    ∨ (∃ r, r ∈ systems st ∧ c ∈ scan_prefix (sector_codes st) ∅ r)
    ∨ (∃ r, r ∈ subsectors st ∧ c ∈ scan_prefix (sector_codes st) ∅ r).
Proof.
  unfold missing_sectors.
  rewrite (foldl_union_elem _ c (scan_prefix_union _)).
  rewrite (foldl_union_elem _ c (scan_prefix_union _)).
  rewrite (foldl_union_elem _ c (scan_planet_union _)).
  rewrite elem_of_empty. tauto.
Qed.

(** A code found missing is not empty and not in the set of sector
    codes. *)
Lemma missing_sectors_fresh st c :
  c ∈ missing_sectors st → c ≠ "" ∧ c ∉ sector_codes st.
Proof.
  rewrite missing_sectors_elem.
  intros [(r & _ & H)|[(r & _ & H)|(r & _ & H)]].
  - by apply (scan_planet_antitone (sector_codes st)) in H as (_ & ? & ?).
  - by apply (scan_prefix_antitone (sector_codes st)) in H as (_ & ? & ?).
  - by apply (scan_prefix_antitone (sector_codes st)) in H as (_ & ? & ?).
Qed.

(** With the same three collections and a larger set of sector codes,
    every code found missing was missing before. *)
Lemma missing_sectors_antitone st st' c :
  planets st' = planets st → systems st' = systems st →
  subsectors st' = subsectors st → sector_codes st ⊆ sector_codes st' →
  c ∈ missing_sectors st' → c ∈ missing_sectors st ∧ c ∉ sector_codes st'.
Proof.
  intros Hp Hs Hss Hsub. rewrite !missing_sectors_elem, Hp, Hs, Hss.
  intros [(r & Hr & H)|[(r & Hr & H)|(r & Hr & H)]].
  - apply (scan_planet_antitone _ _ _ _ Hsub) in H as (? & _ & ?).
    split; [|done]. left. by exists r.
  - apply (scan_prefix_antitone _ _ _ _ Hsub) in H as (? & _ & ?).
    split; [|done]. right. left. by exists r.
  - apply (scan_prefix_antitone _ _ _ _ Hsub) in H as (? & _ & ?).
    split; [|done]. right. right. by exists r.
Qed.

(** *** The code index *)

Lemma index_sound_insert by_code rows r :
  index_sound by_code rows →
  index_sound (<[location r := id r]> by_code) (rows ++ [r]).
Proof.
  intros Hs c i. destruct (decide (location r = c)) as [<-|Hne].
  - rewrite lookup_insert_eq. intros [= <-]. exists r.
    split; [|done]. apply elem_of_app. right. by apply list_elem_of_singleton.
  - rewrite lookup_insert_ne by done. intros (r' & ? & ? & ?)%Hs.
    exists r'. split; [|done]. apply elem_of_app. by left.
Qed.

Lemma index_sound_app by_code rows rows' :
  index_sound by_code rows → index_sound by_code (rows ++ rows').
Proof.
  intros Hs c i (r & ? & ?)%Hs. exists r. split; [|done].
  apply elem_of_app. by left.
Qed.

Lemma by_code_of_fold rows : by_code_of rows = foldl index_row ∅ rows.
Proof. reflexivity. Qed.

Lemma index_row_sound m pre r :
  index_sound m pre → index_sound (index_row m r) (pre ++ [r]).
Proof.
  intros Hm. unfold index_row. destruct (truthy (location r)).
  - by apply index_sound_insert.
  - by apply index_sound_app.
Qed.

Lemma by_code_of_sound rows : index_sound (by_code_of rows) rows.
Proof.
  rewrite by_code_of_fold.
  assert (∀ pre m, index_sound m pre →
    index_sound (foldl index_row m rows) (pre ++ rows)) as H.
  { induction rows as [|r rows IH]; intros pre m Hm; simpl.
    - by rewrite app_nil_r.
    - replace (pre ++ r :: rows) with ((pre ++ [r]) ++ rows)
        by (by rewrite <- app_assoc).
      by apply IH, index_row_sound. }
  apply (H [] ∅). intros c i. by rewrite lookup_empty.
Qed.

Lemma index_fold_keeps (m : gmap string Z) l c i :
  m !! c = Some i → ¬ has_location l c → foldl index_row m l !! c = Some i.
Proof.
  revert m. induction l as [|r l IH]; intros m Hm Hl; [done|]. simpl.
  apply IH.
  - unfold index_row. destruct (truthy (location r)); [|done].
    rewrite lookup_insert_ne; [done|].
    intros Heq. apply Hl. exists r. split; [by left|done].
  - intros (r' & ? & ?). apply Hl. exists r'. split; [by right|done].
Qed.

(** The dictionary built from the rows holds, for a location, the id of
    the last row that has it. *)
Lemma by_code_of_last l1 r l2 :
  location r ≠ "" → ¬ has_location l2 (location r) →
  by_code_of (l1 ++ r :: l2) !! location r = Some (id r).
Proof.
  intros Hne Hl2. rewrite by_code_of_fold, foldl_app. simpl.
  apply index_fold_keeps; [|done]. unfold index_row.
  assert (truthy (location r) = true) as -> by (by destruct (location r)).
  by rewrite lookup_insert_eq.
Qed.

Lemma find_first_with_location l1 r l2 :
  ¬ has_location l1 (location r) →
  List.find (λ r0, bool_decide (location r0 = location r)) (l1 ++ r :: l2) = Some r.
Proof.
  intros Hl. induction l1 as [|a l1 IH]; simpl.
  - by rewrite bool_decide_eq_true_2.
  - rewrite bool_decide_eq_false_2.
    + apply IH. intros (r' & ? & ?). apply Hl. exists r'. split; [by right|done].
    + intros Heq. apply Hl. exists a. split; [by left|done].
Qed.

(** X11. The sectors read from the table are indexed by location with
    the later row winning: when several rows have one location,
    [get_sector_by_code] returns the first of them and
    [get_sector_id_by_code] the id of the last. *)
Theorem id_by_code_last_row_wins (db : database) (st : DataLoader)
    (l1 l2 m1 m2 : list row) (first last : row) :
  db_sectors db = Table (l1 ++ first :: l2) →
  l1 ++ first :: l2 = m1 ++ last :: m2 →
  location first ≠ "" → location last = location first →
  ¬ has_location l1 (location first) → ¬ has_location m2 (location first) →
  get_sector_by_code (_load_sectors db st) (location first) = Some first
  ∧ get_sector_id_by_code (_load_sectors db st) (Some (location first))
    = Some (id last).
Proof.
  intros Hdb Hrows Hne Hloc Hl1 Hm2.
  assert (truthy (location first) = true) as Ht by (by destruct (location first)).
  split.
  - unfold get_sector_by_code, _load_sectors. rewrite Hdb, Ht. simpl.
    by apply find_first_with_location.
  - unfold get_sector_id_by_code, _load_sectors, id_by_code. rewrite Hdb. simpl.
    rewrite Hrows, <- Hloc, by_code_of_last; [done|by rewrite Hloc|by rewrite Hloc].
Qed.

Lemma id_by_code_last_row_wins_witness :
  let first := sample_row 5 "ABC" "" in
  let last := sample_row 9 "ABC" "" in
  let db := Database true true (Table ([] ++ first :: [sample_row 7 "XYZ" ""; last]))
              NoTable NoTable NoTable in
  db_sectors db = Table ([] ++ first :: [sample_row 7 "XYZ" ""; last])
  ∧ [] ++ first :: [sample_row 7 "XYZ" ""; last]
    = [first; sample_row 7 "XYZ" ""] ++ last :: []
  ∧ location first ≠ "" ∧ location last = location first
  ∧ ¬ has_location [] (location first) ∧ ¬ has_location [] (location first)
  ∧ get_sector_by_code (_load_sectors db init) (location first) = Some first
  ∧ get_sector_id_by_code (_load_sectors db init) (Some (location first))
    = Some (id last).
Proof.
  intros first last db.
  assert (¬ has_location [] (location first)) as Hnil
    by (intros (? & ?%elem_of_nil & _); done).
  split; [reflexivity|]. split; [reflexivity|]. split; [discriminate|].
  split; [reflexivity|]. split; [exact Hnil|]. split; [exact Hnil|].
  apply (id_by_code_last_row_wins db init [] [sample_row 7 "XYZ" ""; last]
           [first; sample_row 7 "XYZ" ""] [] first last);
    [reflexivity | reflexivity | discriminate | reflexivity | exact Hnil | exact Hnil].
Defined.

End LoaderInvariants.


(** * Loading twice *)

Section Reload.

Local Open Scope Z_scope.

Variable set_order : gset string → list string.
Hypothesis set_order_complete : ∀ (X : gset string) c, c ∈ X → c ∈ set_order X.
Hypothesis set_order_sound : ∀ (X : gset string) c, c ∈ set_order X → c ∈ X.
Hypothesis set_order_NoDup : ∀ X : gset string, NoDup (set_order X).

Lemma load_connected_repair db d1 d2 c st :
  load_connected set_order db d1 d2 c st
  = repair set_order d1 d2 (load_tables db (set_conn (Some c) st)).
Proof. reflexivity. Qed.

Lemma DataLoader_eta st :
  st = mkDataLoader (sectors st) (subsectors st) (systems st) (planets st) (conn st)
         (sector_codes st) (sector_by_code st) (subsector_by_code st)
         (system_by_code st).
Proof. by destruct st. Qed.

Lemma DataLoader_eq st st' :
  sectors st = sectors st' → subsectors st = subsectors st' →
  systems st = systems st' → planets st = planets st' → conn st = conn st' →
  sector_codes st = sector_codes st' → sector_by_code st = sector_by_code st' →
  subsector_by_code st = subsector_by_code st' →
  system_by_code st = system_by_code st' → st = st'.
Proof. destruct st, st'; simpl. by intros -> -> -> -> -> -> -> -> ->. Qed.

(** What the reading of the tables leaves in each attribute. *)
Lemma load_tables_fields db st :
  let st' := load_tables db st in
  sectors st' = match db_sectors db with
                | Table rows => rows | BadTable => [] | NoTable => sectors st end
  ∧ sector_codes st' = match db_sectors db with
                       | Table rows => codes_of rows | _ => sector_codes st end
  ∧ sector_by_code st' = match db_sectors db with
                         | Table rows => by_code_of rows | _ => sector_by_code st end
  ∧ subsectors st' = match db_subsectors db with
                     | Table rows => rows | BadTable => [] | NoTable => subsectors st end
  ∧ subsector_by_code st' = match db_subsectors db with
                            | Table rows => by_code_of rows
                            | _ => subsector_by_code st end
  ∧ systems st' = match db_systems db with
                  | Table rows => rows | BadTable => [] | NoTable => systems st end
  ∧ system_by_code st' = match db_systems db with
                         | Table rows => by_code_of rows | _ => system_by_code st end
  ∧ planets st' = match db_planets db with
                  | Table rows => rows | BadTable => [] | NoTable => planets st end
  ∧ conn st' = conn st.
Proof.
  unfold load_tables, _load_sectors, _load_subsectors, _load_systems, _load_planets.
  by destruct (db_sectors db), (db_subsectors db), (db_systems db), (db_planets db).
Qed.

Lemma fold_create_stub_index d l : ∀ st n,
  let st' := fst (foldl (create_stub d) (st, n) l) in
  sector_by_code st' = foldl insert_row (sector_by_code st) (stubs_from d n l)
  ∧ subsector_by_code st' = subsector_by_code st
  ∧ system_by_code st' = system_by_code st.
Proof.
  induction l as [|c l IH]; intros st n; simpl; [done|].
  destruct (IH (add_sector (stub_sector n c
    "Automatically generated stub sector" d) st) (n + 1)) as (H1 & H2 & H3).
  by rewrite H1, H2, H3.
Qed.

Lemma stubs_index_dates d d' n l (m : gmap string Z) :
  foldl insert_row m (stubs_from d n l) = foldl insert_row m (stubs_from d' n l).
Proof. revert n m. induction l as [|c l IH]; intros n m; [done|]. simpl. apply IH. Qed.

Lemma stubs_undated d d' n l :
  undated <$> stubs_from d n l = undated <$> stubs_from d' n l.
Proof. revert n. induction l as [|c l IH]; intros n; [done|]. simpl. by rewrite IH. Qed.

Lemma undated_location (rows rows' : list row) :
  undated <$> rows = undated <$> rows' → location <$> rows = location <$> rows'.
Proof.
  intros H. apply (f_equal (fmap location)) in H.
  by rewrite <- !list_fmap_compose in H.
Qed.

Lemma undated_id (rows rows' : list row) :
  undated <$> rows = undated <$> rows' → id <$> rows = id <$> rows'.
Proof.
  intros H. apply (f_equal (fmap id)) in H.
  by rewrite <- !list_fmap_compose in H.
Qed.

Lemma max_id_ids (rows rows' : list row) : id <$> rows = id <$> rows' → max_id rows = max_id rows'.
Proof.
  destruct rows as [|r rows], rows' as [|r' rows']; try done.
  rewrite !fmap_cons. unfold max_id. intros [= E1 E2]. by rewrite E1, E2.
Qed.

Lemma anm_exists_locations st st' :
  location <$> sectors st = location <$> sectors st' → anm_exists st = anm_exists st'.
Proof.
  intros H. apply eq_true_iff_eq.
  rewrite !anm_exists_spec, !has_location_fmap. by rewrite H.
Qed.

(** The stub pass and the forced sector leave the other three
    collections, the connection and the other two indices alone. *)
Lemma repair_frame d1 d2 st :
  let st' := repair set_order d1 d2 st in
  subsectors st' = subsectors st ∧ systems st' = systems st
  ∧ planets st' = planets st ∧ conn st' = conn st
  ∧ subsector_by_code st' = subsector_by_code st
  ∧ system_by_code st' = system_by_code st
  ∧ sector_codes st ⊆ sector_codes st'
  ∧ (∀ c, c ∈ missing_sectors st → c ∈ sector_codes st')
  ∧ (anm_exists st' = true ∨ "ANM" ∈ sector_codes st').
Proof.
  unfold repair. cbv zeta.
  destruct (stub_pass_spec set_order d1 st) as (H1 & H2 & H3 & H4 & H5 & H6).
  destruct (fold_create_stub_index d1 (set_order (missing_sectors st)) st
              (max_id (sectors st) + 1)) as (_ & H7 & H8).
  fold (_create_stub_sectors set_order d1 st) in H7, H8.
  set (s1 := _create_stub_sectors set_order d1 st) in *.
  assert (sector_codes st ⊆ sector_codes s1) as Hsub
    by (rewrite H2; apply union_subseteq_r).
  assert (∀ c, c ∈ missing_sectors st → c ∈ sector_codes s1) as Hmiss.
  { intros c Hc. rewrite H2. apply elem_of_union. left.
    by apply elem_of_list_to_set, set_order_complete. }
  destruct (anm_exists s1) eqn:Hanm; simpl.
  - by repeat split; auto.
  - unfold _create_specific_sector. case_bool_decide as Hin; simpl.
    + by repeat split; auto.
    + repeat split; auto.
      * intros c Hc. apply elem_of_union. right. by apply Hsub.
      * intros c Hc. apply elem_of_union. right. by apply Hmiss.
      * right. apply elem_of_union. left. by apply elem_of_singleton.
Qed.

(** The two readings of the clock show in the timestamps of the sector
    records only. *)
Lemma repair_dates d1 d2 d3 d4 st :
  same_up_to_dates (repair set_order d1 d2 st) (repair set_order d3 d4 st).
Proof.
  destruct (repair_frame d1 d2 st) as (A1 & A2 & A3 & A4 & A5 & A6 & _).
  destruct (repair_frame d3 d4 st) as (B1 & B2 & B3 & B4 & B5 & B6 & _).
  cbv zeta in *. unfold same_up_to_dates.
  rewrite A1, A2, A3, A4, A5, A6, B1, B2, B3, B4, B5, B6.
  assert (undated <$> sectors (repair set_order d1 d2 st)
            = undated <$> sectors (repair set_order d3 d4 st)
          ∧ sector_codes (repair set_order d1 d2 st)
            = sector_codes (repair set_order d3 d4 st)
          ∧ sector_by_code (repair set_order d1 d2 st)
            = sector_by_code (repair set_order d3 d4 st)) as (? & ? & ?);
    [|by repeat split].
  unfold repair. cbv zeta.
  destruct (stub_pass_spec set_order d1 st) as (H1 & H2 & _).
  destruct (stub_pass_spec set_order d3 st) as (H1' & H2' & _).
  destruct (fold_create_stub_index d1 (set_order (missing_sectors st)) st
              (max_id (sectors st) + 1)) as (H3 & _).
  destruct (fold_create_stub_index d3 (set_order (missing_sectors st)) st
              (max_id (sectors st) + 1)) as (H3' & _).
  fold (_create_stub_sectors set_order d1 st) in H3.
  fold (_create_stub_sectors set_order d3 st) in H3'.
  set (s1 := _create_stub_sectors set_order d1 st) in *.
  set (s3 := _create_stub_sectors set_order d3 st) in *.
  assert (undated <$> sectors s1 = undated <$> sectors s3) as Hu.
  { rewrite H1, H1', !fmap_app. f_equal. apply stubs_undated. }
  assert (sector_codes s1 = sector_codes s3) as Hc by (by rewrite H2, H2').
  assert (sector_by_code s1 = sector_by_code s3) as Hi.
  { rewrite H3, H3'. apply stubs_index_dates. }
  rewrite (anm_exists_locations s1 s3) by (by apply undated_location).
  destruct (anm_exists s3); simpl; [done|].
  unfold _create_specific_sector. rewrite Hc.
  case_bool_decide; [done|].
  cbn [add_sector sectors sector_codes sector_by_code set_sector_by_code
       set_sector_codes set_sectors stub_sector location id].
  rewrite (max_id_ids (sectors s1) (sectors s3)) by (by apply undated_id).
  rewrite !fmap_app, Hu, Hc, Hi. done.
Qed.

Lemma set_order_empty : set_order ∅ = [].
Proof.
  destruct (set_order ∅) as [|c l] eqn:E; [done|].
  assert (c ∈ set_order ∅) as H%set_order_sound by (rewrite E; by left).
  by apply not_elem_of_empty in H.
Qed.

(** A loader that went through the stub pass and the forced sector has
    nothing left to repair: a second pass leaves it as it is. *)
Lemma repair_again d1 d2 d3 d4 st :
  repair set_order d3 d4 (repair set_order d1 d2 st) = repair set_order d1 d2 st.
Proof.
  destruct (repair_frame d1 d2 st) as (A1 & A2 & A3 & _ & _ & _ & Hsub & Hmiss & Hanm).
  cbv zeta in *. set (st1 := repair set_order d1 d2 st) in *.
  assert (missing_sectors st1 = ∅) as Hempty.
  { apply elem_of_equiv_empty_L. intros c Hc.
    apply (missing_sectors_antitone st st1) in Hc as [Hc Hn]; auto. }
  unfold repair at 1. cbv zeta.
  assert (_create_stub_sectors set_order d3 st1 = st1) as ->.
  { unfold _create_stub_sectors. by rewrite Hempty, set_order_empty. }
  destruct (anm_exists st1) eqn:E; simpl; [done|].
  destruct Hanm as [?|Hin]; [done|].
  unfold _create_specific_sector. by rewrite bool_decide_eq_true_2.
Qed.

(** Reading the tables again after a load gives what the first reading
    gave when the sectors table is there, and changes nothing when it is
    not listed. *)
Lemma load_tables_again db d1 d2 c st :
  db_sectors db ≠ BadTable →
  let st0 := load_tables db (set_conn (Some c) st) in
  let st1 := repair set_order d1 d2 st0 in
  load_tables db (set_conn (Some c) st1)
  = match db_sectors db with Table _ => st0 | _ => st1 end.
Proof.
  intros Hbad st0 st1.
  destruct (repair_frame d1 d2 st0) as (A1 & A2 & A3 & A4 & A5 & A6 & _).
  fold st1 in A1, A2, A3, A4, A5, A6.
  destruct (load_tables_fields db (set_conn (Some c) st))
    as (F1 & F2 & F3 & F4 & F5 & F6 & F7 & F8 & F9).
  fold st0 in F1, F2, F3, F4, F5, F6, F7, F8, F9.
  destruct (load_tables_fields db (set_conn (Some c) st1))
    as (G1 & G2 & G3 & G4 & G5 & G6 & G7 & G8 & G9).
  cbv zeta in *. cbn [set_conn sectors subsectors systems planets conn sector_codes
    sector_by_code subsector_by_code system_by_code] in *.
  revert F1 F2 F3 F4 F5 F6 F7 F8 F9 G1 G2 G3 G4 G5 G6 G7 G8 G9.
  destruct (db_sectors db) as [| |rows]; [|done|];
    destruct (db_subsectors db), (db_systems db), (db_planets db);
    intros; apply DataLoader_eq; congruence.
Qed.

Lemma same_up_to_dates_refl st : same_up_to_dates st st.
Proof. by repeat split. Qed.

(** X12. Loading twice from the same store gives the same loader, up to
    the timestamps of the stub sectors: when the connection opens and the
    sectors query does not fail, a second [load] right after the first
    leaves the four collections with the same records (the sector
    records may differ in their [date] only), the same [sector_codes] and
    indices, hence the same counts and the same cache of Wyvern
    locations; with equal clock readings the loader is left exactly as it
    was. *)
Theorem reload_idempotent (db : database) (d1 d2 d3 d4 : string) (st : DataLoader) :
  db_exists db = true → db_connects db = true → db_sectors db ≠ BadTable →
  ∃ st1 st2,
    load set_order db d1 d2 st = Ok st1
    ∧ load set_order db d3 d4 st1 = Ok st2
    ∧ same_up_to_dates st2 st1
    ∧ get_stats st2 = get_stats st1
    ∧ build_wyvern_locations_cache (planets st2)
      = build_wyvern_locations_cache (planets st1)
    ∧ (d3 = d1 → d4 = d2 → st2 = st1).
Proof.
  intros He Hc Hbad. unfold load, sqlite3_connect. rewrite He, Hc. simpl.
  do 2 eexists. split; [done|]. split; [done|].
  rewrite !load_connected_repair.
  rewrite (load_tables_again db d1 d2 (Connection false) st Hbad).
  set (st0 := load_tables db (set_conn (Some (Connection false)) st)).
  assert (same_up_to_dates
    (repair set_order d3 d4
       match db_sectors db with Table _ => st0 | _ => repair set_order d1 d2 st0 end)
    (repair set_order d1 d2 st0)
    ∧ (d3 = d1 → d4 = d2 →
       repair set_order d3 d4
         match db_sectors db with Table _ => st0 | _ => repair set_order d1 d2 st0 end
       = repair set_order d1 d2 st0)) as [Hsame Heq].
  { destruct (db_sectors db).
    - rewrite repair_again. split; [apply same_up_to_dates_refl|done].
    - rewrite repair_again. split; [apply same_up_to_dates_refl|done].
    - split; [apply repair_dates|]. by intros -> ->. }
  split; [done|]. split; [|split; [|done]].
  - destruct Hsame as (Hs & Hss & Hsy & Hp & _).
    unfold get_stats. rewrite Hss, Hsy, Hp. f_equal.
    apply (f_equal length) in Hs. by rewrite !length_fmap in Hs.
  - destruct Hsame as (_ & _ & _ & -> & _). done.
Qed.

(** *** The sector index and the ids after a load *)

Lemma index_sound_stubs (m : gmap string Z) rows l :
  index_sound m rows → index_sound (foldl insert_row m l) (rows ++ l).
Proof.
  revert m rows. induction l as [|r l IH]; intros m rows Hm; simpl.
  - by rewrite app_nil_r.
  - replace (rows ++ r :: l) with ((rows ++ [r]) ++ l) by (by rewrite <- app_assoc).
    by apply IH, index_sound_insert.
Qed.

Lemma load_connected_index_sound db d1 d2 c st :
  index_sound (sector_by_code st) (sectors st) → db_sectors db ≠ BadTable →
  let st' := load_connected set_order db d1 d2 c st in
  index_sound (sector_by_code st') (sectors st').
Proof.
  intros Hs Hbad. cbv zeta. rewrite load_connected_repair.
  set (st0 := load_tables db (set_conn (Some c) st)).
  assert (index_sound (sector_by_code st0) (sectors st0)) as Hs0.
  { destruct (load_tables_fields db (set_conn (Some c) st)) as (F1 & _ & F3 & _).
    fold st0 in F1, F3. rewrite F1, F3.
    destruct (db_sectors db); [done|done|apply by_code_of_sound]. }
  unfold repair. cbv zeta.
  destruct (stub_pass_spec set_order d1 st0) as (H1 & _).
  destruct (fold_create_stub_index d1 (set_order (missing_sectors st0)) st0
              (max_id (sectors st0) + 1)) as (H3 & _).
  fold (_create_stub_sectors set_order d1 st0) in H3.
  set (s1 := _create_stub_sectors set_order d1 st0) in *.
  assert (index_sound (sector_by_code s1) (sectors s1)) as Hs1.
  { rewrite H1, H3. by apply index_sound_stubs. }
  destruct (negb (anm_exists s1)); [|done].
  unfold _create_specific_sector. case_bool_decide; [done|].
  by apply index_sound_insert.
Qed.

Lemma id_by_code_spec by_code rows c :
  index_sound by_code rows →
  (id_by_code by_code rows (Some c) = None ↔ ¬ has_location rows c)
  ∧ (∀ i, id_by_code by_code rows (Some c) = Some i →
       ∃ r, r ∈ rows ∧ location r = c ∧ id r = i).
Proof.
  intros Hs. unfold id_by_code.
  pose proof (find_by_location_spec c rows) as Hfind.
  destruct (by_code !! c) as [i|] eqn:Hm.
  - split.
    + split; [done|]. intros Hn. exfalso. apply Hn.
      apply Hs in Hm as (r & ? & ? & _). by exists r.
    + intros i' [= <-]. by apply Hs.
  - destruct (List.find _ rows) as [r|]; simpl.
    + destruct Hfind as (l1 & l2 & -> & Hloc & _). split.
      * split; [done|]. intros Hn. exfalso. apply Hn. exists r.
        split; [|done]. apply elem_of_app. right. by left.
      * intros i [= <-]. exists r. split; [|done]. apply elem_of_app. right. by left.
    + split; [done|]. by intros i [=].
Qed.

(** X13. After a load that opened its connection, on rows that all
    have an integer id, on a loader whose sector index names only sectors
    it holds (as a new loader does) and with a sectors query that does
    not fail, the index still names only
    sectors the loader holds, and [get_sector_id_by_code] on a non-empty
    code returns the id of a sector with that location, and [None]
    exactly when no sector has it. *)
Theorem sector_id_by_code_after_load (db : database) (d1 d2 : string)
    (st : DataLoader) :
  db_exists db = true → db_connects db = true →
  index_sound (sector_by_code st) (sectors st) → db_sectors db ≠ BadTable →
  ∃ st', load set_order db d1 d2 st = Ok st'
    ∧ index_sound (sector_by_code st') (sectors st')
    ∧ ∀ c, c ≠ "" →
        (get_sector_id_by_code st' (Some c) = None ↔ ¬ has_location (sectors st') c)
        ∧ (∀ i, get_sector_id_by_code st' (Some c) = Some i →
             ∃ r, r ∈ sectors st' ∧ location r = c ∧ id r = i).
Proof.
  intros He Hc Hs Hbad. unfold load, sqlite3_connect. rewrite He, Hc. simpl.
  eexists. split; [done|].
  pose proof (load_connected_index_sound db d1 d2 (Connection false) st Hs Hbad) as Hs'.
  split; [done|]. intros c _. by apply id_by_code_spec.
Qed.

Lemma NoDup_fmap_eq {A B} (f : A → B) (l : list A) (a b : A) :
  NoDup (f <$> l) → a ∈ l → b ∈ l → f a = f b → a = b.
Proof.
  induction l as [|y l IH]; [by intros _ ?%elem_of_nil|].
  rewrite fmap_cons, NoDup_cons. intros [Hy Hl] Ha Hb Hf.
  apply elem_of_cons in Ha as [->|Ha]; apply elem_of_cons in Hb as [->|Hb];
    try done.
  - exfalso. apply Hy. rewrite Hf. by apply list_elem_of_fmap_2.
  - exfalso. apply Hy. rewrite <- Hf. by apply list_elem_of_fmap_2.
  - by apply IH.
Qed.

Lemma by_id_spec rows i r :
  by_id rows (Some i) = Some r → r ∈ rows ∧ id r = i.
Proof.
  simpl. intros (Hr%bool_decide_eq_true & l1 & l2 & -> & _)%find_split.
  split; [|done]. apply elem_of_app. right. by left.
Qed.

Lemma by_id_NoDup rows r :
  NoDup (id <$> rows) → r ∈ rows → by_id rows (Some (id r)) = Some r.
Proof.
  intros Hnd Hr. destruct (by_id rows (Some (id r))) as [r'|] eqn:E.
  - apply by_id_spec in E as [Hr' Hid]. f_equal.
    by apply (NoDup_fmap_eq id rows).
  - simpl in E. rewrite find_none_elem in E. apply E in Hr.
    by apply bool_decide_eq_false in Hr.
Qed.

Lemma load_connected_ids_NoDup db d1 d2 c st :
  NoDup (id <$> sectors (load_tables db st)) →
  NoDup (id <$> sectors (load_connected set_order db d1 d2 c st)).
Proof.
  intros Hnd.
  destruct (load_connected_spec set_order db d1 d2 c st)
    as (forced & Hsec & Hforced & _).
  cbv zeta in Hsec, Hforced.
  set (st0 := load_tables db (set_conn (Some c) st)) in *.
  assert (sectors st0 = sectors (load_tables db st)) as Hsame.
  { destruct (load_tables_fields db (set_conn (Some c) st)) as (F1 & _).
    destruct (load_tables_fields db st) as (G1 & _).
    fold st0 in F1. by rewrite F1, G1. }
  destruct (stub_pass_spec set_order d1 st0) as (Hstubs & _).
  rewrite Hstubs in Hsec, Hforced.
  set (stubs := stubs_from d1 (max_id (sectors st0) + 1)
                  (set_order (missing_sectors st0))) in *.
  assert (id <$> stubs = seqZ (max_id (sectors st0) + 1) (Z.of_nat (length stubs)))
    as Hids by (unfold stubs; by rewrite stubs_from_ids, stubs_from_length).
  assert (forced = [] ∨ ∃ r, forced = [r] ∧ id r = max_id (sectors st0 ++ stubs) + 1)
    as Hf by (destruct Hforced as [->| ->]; [by left|right; by eexists]).
  destruct (ids_fresh_sorted (sectors st0) stubs forced Hids Hf) as (Hlt & _ & Hnd').
  rewrite Hsec, <- app_assoc, fmap_app. apply NoDup_app. split; [by rewrite Hsame|].
  split; [|done].
  intros i (r & -> & Hr)%list_elem_of_fmap (r' & Heq & Hr')%list_elem_of_fmap.
  specialize (Hlt r r' Hr Hr'). lia.
Qed.

(** X14. After a load that opened its connection, on rows that all
    have an integer id, on a loader whose sector index names only sectors
    it holds (as a new loader does) and with a sectors query that does
    not fail: when the sectors read from the store have distinct ids, the
    sectors held after the load have distinct ids too, stubs included:
    every sector is the one found by its id, and the id that
    [get_sector_id_by_code] gives for a non-empty code leads back, by
    [get_sector], to a sector with that code. *)
Theorem sector_code_id_roundtrip (db : database) (d1 d2 : string) (st : DataLoader) :
  db_exists db = true → db_connects db = true →
  index_sound (sector_by_code st) (sectors st) → db_sectors db ≠ BadTable →
  NoDup (id <$> sectors (load_tables db st)) →
  ∃ st', load set_order db d1 d2 st = Ok st'
    ∧ NoDup (id <$> sectors st')
    ∧ (∀ r, r ∈ sectors st' → get_sector st' (Some (id r)) = Some r)
    ∧ (∀ c i, c ≠ "" → get_sector_id_by_code st' (Some c) = Some i →
         ∃ r, get_sector st' (Some i) = Some r ∧ location r = c).
Proof.
  intros He Hc Hs Hbad Hnd. unfold load, sqlite3_connect. rewrite He, Hc. simpl.
  eexists. split; [done|].
  pose proof (load_connected_index_sound db d1 d2 (Connection false) st Hs Hbad) as Hs'.
  pose proof (load_connected_ids_NoDup db d1 d2 (Connection false) st Hnd) as Hnd'.
  cbv zeta in Hs'.
  split; [done|]. split.
  - intros r Hr. by apply by_id_NoDup.
  - intros c i _ Hi.
    apply (id_by_code_spec _ _ c Hs') in Hi as (r & Hr & Hloc & <-).
    exists r. split; [by apply by_id_NoDup|done].
Qed.

(** *** One sector record for a code *)

Lemma codes_of_complete rows r :
  r ∈ rows → location r ≠ "" → location r ∈ codes_of rows.
Proof.
  intros Hr Hne. unfold codes_of. apply elem_of_list_to_set, list_elem_of_filter.
  split; [by destruct (location r)|by apply list_elem_of_fmap_2].
Qed.

(** X15. The load never makes a second sector record for a code: when
    the sectors read from the store have pairwise distinct locations (and
    [sector_codes] names every located sector the loader holds, as on a
    new loader), the sectors held after the load, stubs and forced sector
    included, have pairwise distinct locations. *)
Theorem one_sector_per_code (db : database) (d1 d2 : string) (st : DataLoader) :
  db_exists db = true → db_connects db = true →
  codes_complete st → db_sectors db ≠ BadTable →
  NoDup (location <$> sectors (load_tables db st)) →
  ∃ st', load set_order db d1 d2 st = Ok st'
    ∧ NoDup (location <$> sectors st').
Proof.
  intros He Hc Hcomp Hbad Hnd. unfold load, sqlite3_connect. rewrite He, Hc. simpl.
  eexists. split; [done|].
  destruct (load_connected_spec set_order db d1 d2 (Connection false) st)
    as (forced & Hsec & Hforced & _).
  cbv zeta in Hsec, Hforced.
  set (st0 := load_tables db (set_conn (Some (Connection false)) st)) in *.
  destruct (load_tables_fields db (set_conn (Some (Connection false)) st))
    as (F1 & F2 & _).
  destruct (load_tables_fields db st) as (G1 & _).
  fold st0 in F1, F2. cbn [set_conn sectors sector_codes] in F1, F2.
  assert (sectors st0 = sectors (load_tables db st)) as Hsame by (by rewrite F1, G1).
  assert (codes_complete st0) as Hcomp0.
  { intros r. rewrite F1, F2. destruct (db_sectors db); [apply Hcomp|done|].
    apply codes_of_complete. }
  destruct (stub_pass_spec set_order d1 st0) as (Hstubs & _).
  set (s1 := _create_stub_sectors set_order d1 st0) in *.
  assert (NoDup (location <$> sectors s1)) as Hnd1.
  { rewrite Hstubs, fmap_app, stubs_from_locations. apply NoDup_app.
    split; [by rewrite Hsame|]. split; [|apply set_order_NoDup].
    intros c (r & -> & Hr)%list_elem_of_fmap Hin.
    apply set_order_sound, missing_sectors_fresh in Hin as [Hne Hn].
    apply Hn. by apply Hcomp0. }
  rewrite Hsec, fmap_app. apply NoDup_app. split; [done|].
  destruct Hforced as [->| ->]; [split; [by intros ? ? ?%elem_of_nil|constructor]|].
  split; [|apply NoDup_singleton].
  intros c Hin ->%list_elem_of_singleton. simpl in Hin.
  apply has_location_fmap in Hin.
  destruct (load_connected_spec set_order db d1 d2 (Connection false) st)
    as (forced & Hsec' & Hforced' & _).
  cbv zeta in Hsec'. fold st0 in Hsec'. fold s1 in Hsec'.
  apply anm_exists_spec in Hin.
  assert (load_connected set_order db d1 d2 (Connection false) st = s1) as Heq.
  { rewrite load_connected_repair. fold st0. unfold repair. cbv zeta.
    fold s1. by rewrite Hin. }
  rewrite Heq in Hsec.
  apply (f_equal length) in Hsec. rewrite length_app in Hsec. simpl in Hsec. lia.
Qed.

(** *** Parents found after a load *)

Lemma load_connected_resolves db d1 d2 c st :
  codes_sound st → db_sectors db ≠ BadTable →
  let st' := load_connected set_order db d1 d2 c st in
  ∀ r, r ∈ subsectors st' ++ systems st' → (3 ≤ String.length (location r))%nat →
    has_location (sectors st') (slice_to 3 (location r)).
Proof.
  intros Hsound Hbad st' r Hr Hlen.
  destruct (load_connected_spec set_order db d1 d2 c st)
    as (forced & Hsec & _ & _ & H2 & H3 & _).
  cbv zeta in Hsec, H2, H3. fold st' in Hsec, H2, H3.
  set (st0 := load_tables db (set_conn (Some c) st)) in *.
  assert (codes_sound st0) as Hs0
    by (apply load_tables_sound; [by apply set_conn_sound|done]).
  destruct (stub_pass_resolves set_order set_order_complete d1 st0 Hs0) as [Ha _].
  rewrite Hsec. apply has_location_app_l, Ha; [|done]. by rewrite <- H2, <- H3.
Qed.

Lemma slice_to_from (n : nat) s : s = slice_to n s +:+ slice_from n s.
Proof.
  revert s. induction n as [|n IH]; intros s; destruct s as [|a s]; try done.
  change (String a s = String a (slice_to n s +:+ slice_from n s)).
  f_equal. apply IH.
Qed.



(** *** The two ways a load ends without data *)

(** X18. When the path does not exist [load] raises [FileNotFoundError].
    When it exists and the connection cannot be opened, [load] returns
    with the four collections empty, so that every count is 0, no sector
    is found by code or by id and no children are listed; the connection
    attribute, [sector_codes] and the three indices are left as they
    were, so that [get_sector_id_by_code] still answers from the index of
    the load before. *)
Theorem load_without_store (db : database) (d1 d2 : string) (st : DataLoader) :
  (db_exists db = false → load set_order db d1 d2 st = Raise FileNotFoundError)
  ∧ (db_exists db = true → db_connects db = false →
     ∃ st', load set_order db d1 d2 st = Ok st'
       ∧ get_stats st' = Stats 0 0 0 0
       ∧ conn st' = conn st ∧ sector_codes st' = sector_codes st
       ∧ sector_by_code st' = sector_by_code st
       ∧ subsector_by_code st' = subsector_by_code st
       ∧ system_by_code st' = system_by_code st
       ∧ (∀ c, get_sector_by_code st' c = None)
       ∧ (∀ i, get_sector st' i = None ∧ get_subsectors_for_sector st' i = [])
       ∧ (∀ c, get_sector_id_by_code st' (Some c) = sector_by_code st !! c)
       ∧ build_wyvern_locations_cache (planets st') = ∅).
Proof.
  split.
  - intros He. unfold load. by rewrite He.
  - intros He Hc. unfold load, sqlite3_connect. rewrite He, Hc. cbn [negb].
    eexists. split; [done|]. repeat split.
    + intros c. unfold get_sector_by_code. by destruct (negb _).
    + by destruct i.
    + by destruct i.
    + intros c. unfold get_sector_id_by_code, id_by_code. simpl.
      by destruct (sector_by_code st !! c).
Qed.

End Reload.


(** * Further properties of the cache of Wyvern locations *)

Section CacheMore.

Lemma add_wyvern_planet_union loc (a : gset string) :
  add_wyvern_planet loc a = add_wyvern_planet loc ∅ ∪ a.
Proof.
  unfold add_wyvern_planet.
  repeat case_match; rewrite ?(right_id_L ∅ (∪)), ?(assoc_L (∪)); done.
Qed.

Lemma cache_planet_union (a : gset string) p :
  cache_planet a p = cache_planet ∅ p ∪ a.
Proof.
  unfold cache_planet. case_match; [apply add_wyvern_planet_union|].
  by rewrite (left_id_L ∅ (∪)).
Qed.

Lemma cache_elem planets c :
  c ∈ build_wyvern_locations_cache planets ↔
  ∃ p, p ∈ planets ∧ c ∈ cache_planet ∅ p.
Proof.
  unfold build_wyvern_locations_cache.
  rewrite (foldl_union_elem _ c cache_planet_union), elem_of_empty. tauto.
Qed.


Lemma slice_to_prefix (n : nat) s : ∃ t, s = slice_to n s +:+ t.
Proof. exists (slice_from n s). apply slice_to_from. Qed.

(** X20. Nothing enters the cache but through a planet of the marked
    owner: when no planet location has a slash, every code of the cache
    is the beginning of the location of some planet whose owner contains
    the marker; with no such planet the cache is empty. *)
Theorem cache_entries_are_prefixes (planets : list row) (c : string) :
  (∀ p, p ∈ planets → contains "/" (location p) = false) →
  c ∈ build_wyvern_locations_cache planets →
  ∃ p t, p ∈ planets
    ∧ contains "WYVERN SUPREMACY" (upper (owner p)) = true
    ∧ location p = c +:+ t.
Proof.
  intros Hslash (p & Hp & Hc)%cache_elem. exists p.
  unfold cache_planet in Hc.
  destruct (truthy (owner p) && contains "WYVERN SUPREMACY" (upper (owner p))
            && truthy (location p)) eqn:E;
    [|by apply not_elem_of_empty in Hc].
  apply andb_prop in E as [[_ Hown]%andb_prop _].
  unfold add_wyvern_planet in Hc. rewrite (Hslash p Hp) in Hc.
  assert (c = location p ∨ c = slice_to 7 (location p)
          ∨ c = slice_to 6 (location p) ∨ c = slice_to 3 (location p)) as Hcase.
  { revert Hc.
    repeat case_match;
      rewrite ?elem_of_union, ?elem_of_singleton, ?elem_of_empty; tauto. }
  destruct Hcase as [->|[->|[->| ->]]].
  - exists "". split; [done|]. split; [done|].
    clear. induction (location p) as [|a l IH]; [done|].
    change (String a l = String a (l +:+ "")). by f_equal.
  - destruct (slice_to_prefix 7 (location p)) as [t Ht]. by exists t.
  - destruct (slice_to_prefix 6 (location p)) as [t Ht]. by exists t.
  - destruct (slice_to_prefix 3 (location p)) as [t Ht]. by exists t.
Qed.

Lemma upper_idemp s : upper (upper s) = upper s.
Proof. induction s as [|c s IH]; [done|]. simpl. by rewrite upper_char_idemp, IH. Qed.

(** X21. The owner test does not tell upper case from lower case:
    writing every owner in upper case leaves the cache as it is. *)
Theorem cache_owner_case_insensitive (planets : list row) :
  build_wyvern_locations_cache
    ((λ p, Row (id p) (location p) (upper (owner p)) (nav p) (note p) (date p))
       <$> planets)
  = build_wyvern_locations_cache planets.
Proof.
  unfold build_wyvern_locations_cache. generalize (∅ : gset string).
  induction planets as [|p planets IH]; intros a; [done|].
  rewrite fmap_cons. cbn [foldl]. rewrite IH. f_equal.
  unfold cache_planet. cbn [owner location].
  by rewrite upper_idemp, upper_truthy.
Qed.

End CacheMore.

(** * Selection *)

Section SelectionFacts.

Variable set_order : gset string → list string.
Hypothesis set_order_complete : ∀ (X : gset string) c, c ∈ X → c ∈ set_order X.
Variable cols : parent_columns.

Lemma select_parent_sector_spec st loc sel :
  let sel' := select_parent_sector st loc sel in
  selected_subsector sel' = selected_subsector sel
  ∧ selected_system sel' = selected_system sel
  ∧ selected_planet sel' = selected_planet sel
  ∧ match get_sector_by_code st (slice_to 3 loc) with
    | Some parent => selected_sector sel' = Some (id parent)
    | None => selected_sector sel' = selected_sector sel
    end.
Proof.
  unfold select_parent_sector.
  by destruct (get_sector_by_code st (slice_to 3 loc)).
Qed.

(** After a load the sector of a location of three characters or more,
    taken from a subsector or a system, is found by code. *)
Lemma parent_sector_found db d1 d2 c st r :
  codes_sound st → db_sectors db ≠ BadTable →
  let st' := load_connected set_order db d1 d2 c st in
  r ∈ subsectors st' ++ systems st' → (3 ≤ String.length (location r)) →
  ∃ parent, get_sector_by_code st' (slice_to 3 (location r)) = Some parent
    ∧ parent ∈ sectors st' ∧ location parent = slice_to 3 (location r).
Proof.
  intros Hsound Hbad st' Hr Hlen.
  pose proof (load_connected_resolves set_order set_order_complete
                db d1 d2 c st Hsound Hbad r Hr Hlen) as Hhas.
  fold st' in Hhas.
  destruct (get_sector_by_code_first st' (slice_to 3 (location r))) as [_ Hfirst].
  specialize (Hfirst (slice_to_3_nonempty _ Hlen)).
  destruct (get_sector_by_code st' (slice_to 3 (location r))) as [parent|]; [|done].
  destruct Hfirst as (l1 & l2 & Hsplit & Hloc & _).
  exists parent. split; [done|]. split; [|done].
  rewrite Hsplit. apply elem_of_app. right. by left.
Qed.


Lemma slice_to_slice_to (n m : nat) s :
  n ≤ m → slice_to n (slice_to m s) = slice_to n s.
Proof.
  revert m s. induction n as [|n IH]; intros m s Hnm; [by destruct m, s|].
  destruct m as [|m]; [lia|]. destruct s as [|a s]; [done|].
  simpl. f_equal. apply IH. lia.
Qed.

Lemma slice_to_length (n : nat) s :
  n ≤ String.length s → String.length (slice_to n s) = n.
Proof.
  revert s. induction n as [|n IH]; intros s H; [by destruct s|].
  destruct s as [|a s]; simpl in *; [lia|]. rewrite IH; lia.
Qed.

Lemma find_by_location_some code rows r :
  find_by_location code rows = Some r → r ∈ rows ∧ location r = code.
Proof.
  unfold find_by_location.
  intros (Hr%bool_decide_eq_true & l1 & l2 & -> & _)%find_split.
  split; [|done]. apply elem_of_app. right. by left.
Qed.

(** What the walk up by codes selects, after a load, from a location of
    six characters or more. *)
Lemma select_by_subsector_code_after_load db d1 d2 st loc sel :
  codes_sound st → db_sectors db ≠ BadTable →
  let st' := load_connected set_order db d1 d2 (Connection false) st in
  let sel' := select_by_subsector_code st' loc sel in
  6 ≤ String.length loc →
  selected_system sel' = selected_system sel
  ∧ selected_planet sel' = selected_planet sel
  ∧ match find_by_location (slice_to 6 loc) (subsectors st') with
    | Some subsector =>
        selected_subsector sel' = Some (id subsector)
        ∧ ∃ parent, selected_sector sel' = Some (id parent)
            ∧ parent ∈ sectors st' ∧ location parent = slice_to 3 loc
    | None =>
        selected_subsector sel' = selected_subsector sel
        ∧ selected_sector sel' = selected_sector sel
    end.
Proof.
  intros Hsound Hbad st' sel' Hlen. unfold sel', select_by_subsector_code.
  destruct (find_by_location (slice_to 6 loc) (subsectors st')) as [sub|] eqn:E;
    [|done].
  assert ((3 <=? String.length loc) = true) as -> by (apply Nat.leb_le; lia).
  destruct (select_parent_sector_spec st' loc
              (set_selected_subsector (Some (id sub)) sel)) as (H1 & H2 & H3 & H4).
  cbv zeta in H1, H2, H3, H4. rewrite H1, H2, H3.
  repeat split; try done.
  apply find_by_location_some in E as [Hin Hloc].
  destruct (parent_sector_found db d1 d2 (Connection false) st sub Hsound Hbad)
    as (parent & Hp & Hpin & Hploc); [apply elem_of_app; by left| |].
  { rewrite Hloc, slice_to_length; lia. }
  fold st' in Hp, Hpin.
  rewrite Hloc, slice_to_slice_to in Hp, Hploc by lia.
  rewrite Hp in H4. by exists parent.
Qed.




End SelectionFacts.


(** * The further properties on the sample stores *)

Lemma elements_sound (X : gset string) (c : string) : c ∈ elements X → c ∈ X.
Proof. by rewrite elem_of_elements. Qed.

Lemma elements_NoDup (X : gset string) : NoDup (elements X).
Proof. apply NoDup_elements. Qed.

Lemma init_index_sound : index_sound (sector_by_code init) (sectors init).
Proof. intros c i. simpl. by rewrite lookup_empty. Qed.

Lemma init_complete : codes_complete init.
Proof. intros r Hr. by apply elem_of_nil in Hr. Qed.

Lemma two_sectors_ids_NoDup :
  NoDup (id <$> sectors (load_tables db_two_sectors init)).
Proof.
  change (NoDup [5%Z; 3%Z]). apply NoDup_cons. split; [|apply NoDup_singleton].
  by intros ?%list_elem_of_singleton.
Qed.

Lemma two_sectors_locations_NoDup :
  NoDup (location <$> sectors (load_tables db_two_sectors init)).
Proof.
  change (NoDup ["ABC"; "XYZ"]). apply NoDup_cons. split; [|apply NoDup_singleton].
  by intros ?%list_elem_of_singleton.
Qed.

Lemma reload_idempotent_witness :
  (∀ (X : gset string) c, c ∈ X → c ∈ elements X)
  ∧ (∀ (X : gset string) c, c ∈ elements X → c ∈ X)
  ∧ db_exists db_two_sectors = true ∧ db_connects db_two_sectors = true
  ∧ db_sectors db_two_sectors ≠ BadTable
  ∧ ∃ st1 st2,
      load elements db_two_sectors "t1" "t2" init = Ok st1
      ∧ load elements db_two_sectors "t3" "t4" st1 = Ok st2
      ∧ same_up_to_dates st2 st1
      ∧ get_stats st2 = get_stats st1
      ∧ build_wyvern_locations_cache (planets st2)
        = build_wyvern_locations_cache (planets st1)
      ∧ ("t3" = "t1" → "t4" = "t2" → st2 = st1).
Proof.
  split; [exact elements_complete|]. split; [exact elements_sound|].
  split; [reflexivity|]. split; [reflexivity|]. split; [discriminate|].
  apply (reload_idempotent elements elements_complete elements_sound
           db_two_sectors "t1" "t2" "t3" "t4" init);
    [reflexivity | reflexivity | discriminate].
Defined.

Lemma sector_id_by_code_after_load_witness :
  db_exists db_two_sectors = true ∧ db_connects db_two_sectors = true
  ∧ index_sound (sector_by_code init) (sectors init)
  ∧ db_sectors db_two_sectors ≠ BadTable
  ∧ ∃ st', load elements db_two_sectors "t1" "t2" init = Ok st'
    ∧ index_sound (sector_by_code st') (sectors st')
    ∧ ∀ c, c ≠ "" →
        (get_sector_id_by_code st' (Some c) = None ↔ ¬ has_location (sectors st') c)
        ∧ (∀ i, get_sector_id_by_code st' (Some c) = Some i →
             ∃ r, r ∈ sectors st' ∧ location r = c ∧ id r = i).
Proof.
  split; [reflexivity|]. split; [reflexivity|]. split; [exact init_index_sound|].
  split; [discriminate|].
  apply (sector_id_by_code_after_load elements db_two_sectors "t1" "t2" init);
    [reflexivity | reflexivity | exact init_index_sound | discriminate].
Defined.

Lemma sector_code_id_roundtrip_witness :
  db_exists db_two_sectors = true ∧ db_connects db_two_sectors = true
  ∧ index_sound (sector_by_code init) (sectors init)
  ∧ db_sectors db_two_sectors ≠ BadTable
  ∧ NoDup (id <$> sectors (load_tables db_two_sectors init))
  ∧ ∃ st', load elements db_two_sectors "t1" "t2" init = Ok st'
    ∧ NoDup (id <$> sectors st')
    ∧ (∀ r, r ∈ sectors st' → get_sector st' (Some (id r)) = Some r)
    ∧ (∀ c i, c ≠ "" → get_sector_id_by_code st' (Some c) = Some i →
         ∃ r, get_sector st' (Some i) = Some r ∧ location r = c).
Proof.
  split; [reflexivity|]. split; [reflexivity|]. split; [exact init_index_sound|].
  split; [discriminate|]. split; [exact two_sectors_ids_NoDup|].
  apply (sector_code_id_roundtrip elements db_two_sectors "t1" "t2" init);
    [reflexivity | reflexivity | exact init_index_sound | discriminate
    | exact two_sectors_ids_NoDup].
Defined.

Lemma one_sector_per_code_witness :
  (∀ (X : gset string) c, c ∈ elements X → c ∈ X)
  ∧ (∀ X : gset string, NoDup (elements X))
  ∧ db_exists db_two_sectors = true ∧ db_connects db_two_sectors = true
  ∧ codes_complete init ∧ db_sectors db_two_sectors ≠ BadTable
  ∧ NoDup (location <$> sectors (load_tables db_two_sectors init))
  ∧ ∃ st', load elements db_two_sectors "t1" "t2" init = Ok st'
    ∧ NoDup (location <$> sectors st').
Proof.
  split; [exact elements_sound|]. split; [exact elements_NoDup|].
  split; [reflexivity|]. split; [reflexivity|]. split; [exact init_complete|].
  split; [discriminate|]. split; [exact two_sectors_locations_NoDup|].
  apply (one_sector_per_code elements elements_sound elements_NoDup
           db_two_sectors "t1" "t2" init);
    [reflexivity | reflexivity | exact init_complete | discriminate
    | exact two_sectors_locations_NoDup].
Defined.



Lemma cache_entries_are_prefixes_witness :
  let planets := [sample_row 1 "MMM22211" "Wyvern Supremacy";
                  sample_row 2 "ABC12345" "Others"] in
  (∀ p, p ∈ planets → contains "/" (location p) = false)
  ∧ "MMM222" ∈ build_wyvern_locations_cache planets
  ∧ ∃ p t, p ∈ planets
      ∧ contains "WYVERN SUPREMACY" (upper (owner p)) = true
      ∧ location p = "MMM222" +:+ t.
Proof.
  intros planets.
  assert (∀ p, p ∈ planets → contains "/" (location p) = false) as Hslash.
  { intros p [->|[->|?%elem_of_nil]%elem_of_cons]%elem_of_cons; done. }
  assert ("MMM222" ∈ build_wyvern_locations_cache planets) as Hin.
  { apply elem_of_elements. vm_compute. apply list_elem_of_In. simpl. tauto. }
  split; [exact Hslash|]. split; [exact Hin|].
  apply (cache_entries_are_prefixes planets "MMM222" Hslash Hin).
Defined.




